(** * Physics: the physics library of the black-hole visualisation

    The JavaScript object [Physics] is a flat library of pure functions on
    Numbers.  A JavaScript Number is an IEEE-754 binary64 value, so the
    functions are embedded twice:

    - [Binary64]: over Rocq's primitive [float]s, which are binary64 with
      round-to-nearest-even.  Every arithmetic step, comparison and rounding
      of the source is reproduced bit for bit, and every definition computes.
      [Math.sqrt] is the correctly rounded square root, as engines implement
      it; [Math.pow], whose result the language leaves to the implementation,
      is a parameter.
    - [Ideal]: over the real numbers, the reading under which statements of
      analysis (limits, continuity) are made.  It has no infinities and no
      NaN: a division by zero, the square root of a negative number and a
      fractional power of a negative base have no counterpart in it, and the
      statements made in it keep away from them. *)

(** The rest of the program is embedded in binary64 as well: the
    parameters and the mouse handlers of [BlackHoleSimulation]
    ([Simulation]), its vector and matrix helpers ([Matrices]), and the
    index and vertex arrays of the meshes, with natural numbers for the
    loop counters ([Geometry]).

    A statement made over the reals is kept only where the binary64 code
    shows the same: an identity whose every step is exact in binary64, or
    inequalities that are not strict and that rounding, which is monotone,
    cannot break.  What holds of the real numbers only up to rounding is
    not stated. *)

From Stdlib Require Import ZArith List String Ascii Bool DecimalString Lia.
From Stdlib Require Import Floats.PrimFloat Floats.FloatOps Floats.SpecFloat
  Floats.FloatAxioms.
From Stdlib Require DecimalPos.
From Stdlib Require Import Reals Lra.

Set Warnings "-inexact-float".

(* ================================================================== *)
(** ** The binary64 embedding *)
(* ================================================================== *)

Module Binary64.

Local Open Scope string_scope.
Local Open Scope float_scope.

(** *** Physical constants *)

Definition G : float := 6.67430e-11.
Definition c : float := 299792458.
Definition solarMass : float := 1.989e30.

(** *** Values returned to the renderer *)

Record vec3 : Set := mkVec3 { x : float; y : float; z : float }.
Record rgb : Set := mkRgb { r : float; g : float; b : float }.

(** [Math.sqrt] is the correctly rounded binary64 square root. *)
Definition Math_sqrt (v : float) : float := PrimFloat.sqrt v.

(** *** Radii *)

Definition calculateSchwarzschildRadius (mass : float) : float :=
  let massKg := mass * solarMass in
  let rs := (2 * G * massKg) / (c * c) in
  rs / 1000.

Definition calculateEventHorizon (mass : float) : float :=
  calculateSchwarzschildRadius mass.

Definition calculatePhotonSphere (mass : float) : float :=
  calculateSchwarzschildRadius mass * 1.5.

(** *** Lensing, curvature, time dilation *)

(** [impactParameter === 0] is IEEE equality: it holds of both zeros and
    fails on NaN. *)
Definition calculateLensingAngle (mass impactParameter : float) : float :=
  if impactParameter =? 0 then 0
  else
    let rs := calculateSchwarzschildRadius mass in
    (4 * rs) / impactParameter.

Definition calculateOrbitalVelocity (mass radius : float) : float :=
  let massKg := mass * solarMass in
  let radiusM := radius * 1000 in
  Math_sqrt ((G * massKg) / radiusM).

Definition calculateSpacetimeCurvature (mass x y z : float) : float :=
  let dist := Math_sqrt (x * x + y * y + z * z) in
  if dist =? 0 then 0
  else
    let rs := calculateSchwarzschildRadius mass in
    (rs / (dist * dist)) * 100.

Definition calculateTimeDilation (mass radius : float) : float :=
  let rs := calculateSchwarzschildRadius mass in
  if radius <=? rs then 0
  else Math_sqrt (1 - rs / radius).

Definition applyGravitationalLensing (ray : vec3) (mass : float)
    (position : vec3) : vec3 :=
  let dist := Math_sqrt (x position * x position
                    + y position * y position
                    + z position * z position) in
  if dist =? 0 then ray
  else
    let rs := calculateSchwarzschildRadius mass in
    let bendingStrength := (rs / (dist * dist)) * 0.1 in
    let toCenter := {| x := (- x position) / dist;
                       y := (- y position) / dist;
                       z := (- z position) / dist |} in
    {| x := x ray + x toCenter * bendingStrength;
       y := y ray + y toCenter * bendingStrength;
       z := z ray + z toCenter * bendingStrength |}.

(** *** Accretion-disk colour *)

(** The colour stage of [calculateAccretionTemperature] (the three-way
    [if] on [temp]), named so that it can be evaluated at a given [temp]. *)
Definition temperatureToColor (temp : float) : rgb :=
  if temp <? 0.33 then
    {| r := temp * 3.0; g := temp * 2.5; b := 1.0 |}
  else if temp <? 0.66 then
    let t := (temp - 0.33) * 3.0 in
    {| r := 0.33 + t * 0.67; g := 0.83 + t * 0.17; b := 1.0 - t * 0.3 |}
  else
    let t := (temp - 0.66) * 3.0 in
    {| r := 1.0; g := 1.0 - t * 0.6; b := 0.7 - t * 0.6 |}.

Section WithPow.

(** [Math.pow], as the host implements it. *)
Variable Math_pow : float -> float -> float.

Definition calculateISCO (mass spin : float) : float :=
  let rs := calculateSchwarzschildRadius mass in
  let Z1 := 1 + Math_pow (1 - spin * spin) (1 / 3)
                * (Math_pow (1 + spin) (1 / 3) + Math_pow (1 - spin) (1 / 3)) in
  let Z2 := Math_sqrt (3 * spin * spin + Z1 * Z1) in
  let rISCO := rs * (3 + Z2 - Math_sqrt ((3 - Z1) * (3 + Z1 + 2 * Z2))) in
  rISCO.

Definition calculateAccretionTemperature (mass radius colorTemp : float)
    : rgb :=
  let baseTempFactor := 1.0 / Math_pow radius 0.75 in
  let temp := baseTempFactor * (0.5 + colorTemp * 0.5) in
  temperatureToColor temp.

End WithPow.

(** *** Number.prototype.toFixed

    [x.toFixed(f)] works on the exact value of the double [x].  [Prim2SF]
    gives that value as sign, mantissa [m] and exponent [e]: [m * 2^e]. *)

Definition decimal (n : Z) : string :=
  NilZero.string_of_uint (N.to_uint (Z.to_N n)).

Fixpoint zeros (k : nat) : string :=
  match k with
  | O => ""
  | S k' => String "0" (zeros k')
  end.

(** The integer [n] for which [n / 10^f - m * 2^e] is closest to zero, the
    larger one when there are two: [floor (m * 2^e * 10^f + 1/2)]. *)
Definition nearest_scaled (m e : Z) (f : nat) : Z :=
  let num := (m * 10 ^ Z.of_nat f)%Z in
  if (0 <=? e)%Z then (num * 2 ^ e)%Z
  else ((2 * num + 2 ^ (- e)) / 2 ^ (1 - e))%Z.

(** The digits of [n] with a point before the last [f] of them, padded with
    zeros on the left to [f + 1] digits. *)
Definition fixed_notation (n : Z) (f : nat) : string :=
  let m := decimal n in
  match f with
  | O => m
  | S _ =>
      let k := String.length m in
      let m := if (k <=? f)%nat then zeros (f + 1 - k) ++ m else m in
      let k := String.length m in
      substring 0 (k - f) m ++ "." ++ substring (k - f) f m
  end.

(** The double nearest to the integer [v] (ties to even). *)
Definition Z2float (v : Z) : float :=
  SF2Prim (binary_normalize prec emax v 0 false).

(** Digits [s] (there are [k] of them) and position [n] with
    [s * 10^(n-k)] reading back as [x]; [X] is the exact value of [x] and
    has [D] digits.  Of two such [s] the one nearer to [X] is taken. *)
Definition digits_candidate (x : float) (X D k : Z) : option (Z * Z) :=
  let p := (D - k)%Z in
  let lo := (X / 10 ^ p)%Z in
  let hi := (lo + 1)%Z in
  let hi_pair := if (hi =? 10 ^ k)%Z then (10 ^ (k - 1), D + 1)%Z
                 else (hi, D) in
  match Z2float (lo * 10 ^ p) =? x, Z2float (hi * 10 ^ p) =? x with
  | true, true =>
      if (X - lo * 10 ^ p <=? hi * 10 ^ p - X)%Z then Some (lo, D)
      else Some hi_pair
  | true, false => Some (lo, D)
  | false, true => Some hi_pair
  | false, false => None
  end.

(** The least [k] that has a candidate; seventeen digits always do. *)
Fixpoint shortest_digits (fuel : nat) (x : float) (X D k : Z) : Z * Z :=
  match fuel with
  | O => ((X / 10 ^ (D - k))%Z, D)
  | S fuel' =>
      match digits_candidate x X D k with
      | Some sn => sn
      | None => shortest_digits fuel' x X D (k + 1)
      end
  end.

Definition exponential_notation (s n : Z) : string :=
  match decimal s with
  | String a rest =>
      String a (match rest with "" => "" | _ => "." ++ rest end)
      ++ "e+" ++ decimal (n - 1)
  | "" => ""
  end.

(** [Number::toString(x, 10)] on the finite doubles that [toFixed] hands to
    it: those of magnitude at least [10^21], given by mantissa and
    exponent.  Such a value is an integer of more than 21 digits, and its
    string is in exponent notation. *)
Definition toString_large (m e : Z) : string :=
  let X := (m * 2 ^ e)%Z in
  let D := Z.of_nat (String.length (decimal X)) in
  let '(s, n) := shortest_digits 17 (Z2float X) X D 1 in
  exponential_notation s n.

(** [Number.prototype.toFixed]: a value that is not finite is written by
    name; otherwise the sign is split off (a zero of either sign has none),
    a magnitude of [10^21] or more is written by [Number::toString], and
    below that the nearest integer to [x * 10^f] is written with a point
    before its last [f] digits. *)
Definition toFixed (x : float) (fractionDigits : nat) : string :=
  match Prim2SF x with
  | S754_nan => "NaN"
  | S754_infinity s => if s then "-Infinity" else "Infinity"
  | S754_zero _ => fixed_notation 0 fractionDigits
  | S754_finite s m e =>
      (if s then "-" else "")
      ++ (if 1e21 <=? abs x then toString_large (Zpos m) e
          else fixed_notation (nearest_scaled (Zpos m) e fractionDigits)
                              fractionDigits)
  end.

Definition formatValue (value : float) (unit : string) : string :=
  if 1e6 <=? value then toFixed (value / 1e6) 2 ++ " M" ++ unit
  else if 1e3 <=? value then toFixed (value / 1e3) 2 ++ " k" ++ unit
  else if 1 <=? value then toFixed value 2 ++ " " ++ unit
  else toFixed (value * 1000) 2 ++ " m" ++ unit.

End Binary64.

(* ================================================================== *)
(** ** The embedding over the reals *)
(* ================================================================== *)

Module Ideal.

Local Open Scope R_scope.

Definition G : R := 6.67430e-11.
Definition c : R := 299792458.
Definition solarMass : R := 1.989e30.

Record rgb : Type := mkRgb { r : R; g : R; b : R }.

(** [Math.pow] on the bases the library passes to it: a positive base, and
    base zero, whose positive powers are zero.  (A negative base with the
    fractional exponents of this library is NaN in the source and is not
    part of this reading.) *)
Definition Math_pow (base exponent : R) : R :=
  if Rlt_dec 0 base then Rpower base exponent else 0.

Definition Math_sqrt (v : R) : R := sqrt v.

Definition calculateSchwarzschildRadius (mass : R) : R :=
  let massKg := mass * solarMass in
  let rs := (2 * G * massKg) / (c * c) in
  rs / 1000.

Definition calculateEventHorizon (mass : R) : R :=
  calculateSchwarzschildRadius mass.

Definition calculatePhotonSphere (mass : R) : R :=
  calculateSchwarzschildRadius mass * 1.5.

Definition calculateISCO (mass spin : R) : R :=
  let rs := calculateSchwarzschildRadius mass in
  let Z1 := 1 + Math_pow (1 - spin * spin) (1 / 3)
                * (Math_pow (1 + spin) (1 / 3) + Math_pow (1 - spin) (1 / 3)) in
  let Z2 := Math_sqrt (3 * spin * spin + Z1 * Z1) in
  let rISCO := rs * (3 + Z2 - Math_sqrt ((3 - Z1) * (3 + Z1 + 2 * Z2))) in
  rISCO.

Definition calculateTimeDilation (mass radius : R) : R :=
  let rs := calculateSchwarzschildRadius mass in
  if Rle_dec radius rs then 0
  else Math_sqrt (1 - rs / radius).

Definition temperatureToColor (temp : R) : rgb :=
  if Rlt_dec temp 0.33 then
    {| r := temp * 3.0; g := temp * 2.5; b := 1.0 |}
  else if Rlt_dec temp 0.66 then
    let t := (temp - 0.33) * 3.0 in
    {| r := 0.33 + t * 0.67; g := 0.83 + t * 0.17; b := 1.0 - t * 0.3 |}
  else
    let t := (temp - 0.66) * 3.0 in
    {| r := 1.0; g := 1.0 - t * 0.6; b := 0.7 - t * 0.6 |}.

Definition calculateAccretionTemperature (mass radius colorTemp : R) : rgb :=
  let baseTempFactor := 1.0 / Math_pow radius 0.75 in
  let temp := baseTempFactor * (0.5 + colorTemp * 0.5) in
  temperatureToColor temp.

(** The channels as functions of the temperature. *)
Definition red (temp : R) : R := r (temperatureToColor temp).
Definition green (temp : R) : R := g (temperatureToColor temp).
Definition blue (temp : R) : R := b (temperatureToColor temp).

(** [f] tends to [l] as its argument tends to [a] from below. *)
Definition left_limit (f : R -> R) (a l : R) : Prop :=
  forall eps, 0 < eps ->
    exists delta, 0 < delta /\
      forall t, a - delta < t < a -> Rabs (f t - l) < eps.

(** [f] tends to [l] as its argument grows without bound. *)
Definition limit_at_infinity (f : R -> R) (l : R) : Prop :=
  forall eps, 0 < eps ->
    exists bound, forall t, bound < t -> Rabs (f t - l) < eps.

End Ideal.

(* ================================================================== *)
(** ** The intermediate quantities of the orbit formula over the reals *)
(* ================================================================== *)

Module IdealPhysics.

Import Ideal.
Local Open Scope R_scope.

(** The two intermediate quantities of [calculateISCO], as functions of the
    spin. *)
Definition isco_Z1 (spin : R) : R :=
  1 + Math_pow (1 - spin * spin) (1 / 3)
      * (Math_pow (1 + spin) (1 / 3) + Math_pow (1 - spin) (1 / 3)).

Definition isco_Z2 (spin : R) : R :=
  Math_sqrt (3 * spin * spin + isco_Z1 spin * isco_Z1 spin).

End IdealPhysics.

(* ================================================================== *)
(** ** Functions of the host in binary64 *)
(* ================================================================== *)

Module Binary64Host.

Local Open Scope float_scope.

(** A [Math.pow] that is right where the language fixes the result of the
    bases met here: NaN for a negative base with a fractional exponent, 0
    for base 0 with a positive exponent, 1 for base 1.  On the other bases
    it answers 1; it stands in for the host only where those are not
    reached. *)
Definition pow_fixed_cases (base exponent : float) : float :=
  if base <? 0 then nan
  else if base =? 0 then 0
  else 1.

(** [Math.min] and [Math.max] of two Numbers: NaN when either is NaN, and
    [-0] counts as smaller than [+0]. *)
Definition Math_min (a b : float) : float :=
  if is_nan a || is_nan b then nan
  else if a <? b then a
  else if b <? a then b
  else if (a =? 0) && get_sign b then b
  else a.

Definition Math_max (a b : float) : float :=
  if is_nan a || is_nan b then nan
  else if a <? b then b
  else if b <? a then a
  else if (a =? 0) && get_sign a then b
  else a.

End Binary64Host.

(* ================================================================== *)
(** ** The simulation object: parameters and mouse interaction *)
(* ================================================================== *)

(** The part of [BlackHoleSimulation] that the handlers below read and
    write: the parameter set, the rotation, the mouse state, and of the
    page the two physics read-outs. *)

Module Simulation.

Import Binary64 Binary64Host.
Local Open Scope string_scope.
Local Open Scope float_scope.

Record Params : Set := mkParams {
  mass : float;
  spin : float;
  accretionBrightness : float;
  accretionColor : float;
  accretionThickness : float;
  lensingStrength : float;
  cameraDistance : float;
  cameraAngle : float;
  autoRotate : bool
}.

Record Sim : Set := mkSim {
  params : Params;
  rotation : float;
  mouseDown : bool;
  lastMouseX : float;
  lastMouseY : float;
  schwarzschildRadiusText : string;
  eventHorizonText : string
}.

(** The parameters that the constructor starts with. *)
Definition constructorParams : Params :=
  {| mass := 10; spin := 0.5; accretionBrightness := 0.8;
     accretionColor := 0.5; accretionThickness := 0.3;
     lensingStrength := 1.0; cameraDistance := 20; cameraAngle := 30;
     autoRotate := true |}.

Definition updatePhysicsDisplay (s : Sim) : Sim :=
  let rs := calculateSchwarzschildRadius (mass (params s)) in
  let eh := calculateEventHorizon (mass (params s)) in
  {| params := params s; rotation := rotation s; mouseDown := mouseDown s;
     lastMouseX := lastMouseX s; lastMouseY := lastMouseY s;
     schwarzschildRadiusText := formatValue rs "km";
     eventHorizonText := formatValue (eh * 2) "km" |}.

Definition resetParameters (s : Sim) : Sim :=
  updatePhysicsDisplay
    {| params := {| mass := 10; spin := 0.5; accretionBrightness := 0.8;
                    accretionColor := 0.5; accretionThickness := 0.3;
                    lensingStrength := 1.0; cameraDistance := 20;
                    cameraAngle := 30; autoRotate := true |};
       rotation := rotation s; mouseDown := mouseDown s;
       lastMouseX := lastMouseX s; lastMouseY := lastMouseY s;
       schwarzschildRadiusText := schwarzschildRadiusText s;
       eventHorizonText := eventHorizonText s |}.

Definition withCameraAngle (p : Params) (angle : float) : Params :=
  {| mass := mass p; spin := spin p;
     accretionBrightness := accretionBrightness p;
     accretionColor := accretionColor p;
     accretionThickness := accretionThickness p;
     lensingStrength := lensingStrength p;
     cameraDistance := cameraDistance p; cameraAngle := angle;
     autoRotate := autoRotate p |}.

(** The [mousedown], [mousemove] and [mouseup] listeners of the canvas,
    each applied to the pointer position of its event. *)
Definition onMouseDown (s : Sim) (clientX clientY : float) : Sim :=
  {| params := params s; rotation := rotation s; mouseDown := true;
     lastMouseX := clientX; lastMouseY := clientY;
     schwarzschildRadiusText := schwarzschildRadiusText s;
     eventHorizonText := eventHorizonText s |}.

Definition onMouseMove (s : Sim) (clientX clientY : float) : Sim :=
  if mouseDown s then
    let deltaX := clientX - lastMouseX s in
    let deltaY := clientY - lastMouseY s in
    {| params :=
         withCameraAngle (params s)
           (Math_max 0 (Math_min 90 (cameraAngle (params s) + deltaY * 0.1)));
       rotation := rotation s + deltaX * 0.005;
       mouseDown := mouseDown s;
       lastMouseX := clientX; lastMouseY := clientY;
       schwarzschildRadiusText := schwarzschildRadiusText s;
       eventHorizonText := eventHorizonText s |}
  else s.

Definition onMouseUp (s : Sim) : Sim :=
  {| params := params s; rotation := rotation s; mouseDown := false;
     lastMouseX := lastMouseX s; lastMouseY := lastMouseY s;
     schwarzschildRadiusText := schwarzschildRadiusText s;
     eventHorizonText := eventHorizonText s |}.

(** A pointer event of the canvas. *)
Inductive MouseEvent : Set :=
| MouseDown (clientX clientY : float)
| MouseMove (clientX clientY : float)
| MouseUp.

Definition handle (s : Sim) (e : MouseEvent) : Sim :=
  match e with
  | MouseDown cx cy => onMouseDown s cx cy
  | MouseMove cx cy => onMouseMove s cx cy
  | MouseUp => onMouseUp s
  end.

(** [normalize] of the simulation, on a three-element array. *)
Definition normalize (v : list float) : list float :=
  let v0 := nth 0 v nan in
  let v1 := nth 1 v nan in
  let v2 := nth 2 v nan in
  let len := Math_sqrt (v0 * v0 + v1 * v1 + v2 * v2) in
  (v0 / len :: v1 / len :: v2 / len :: nil)%list.

End Simulation.

(* ================================================================== *)
(** ** Vectors and matrices of the simulation in binary64 *)
(* ================================================================== *)

(** A vector is a JavaScript array of three numbers and a matrix an array
    of sixteen, as WebGL takes them: entry [4 * c + r] is row [r] of column
    [c].  Reading past the end of an array gives [undefined], which
    arithmetic turns into NaN. *)

Module Matrices.

Import ListNotations.
Import Binary64.
Local Open Scope list_scope.
Local Open Scope float_scope.

(** [v[i]], as the arithmetic that reads it sees it. *)
Definition item (v : list float) (i : nat) : float := nth i v nan.

Definition cross (a b : list float) : list float :=
  [item a 1 * item b 2 - item a 2 * item b 1;
   item a 2 * item b 0 - item a 0 * item b 2;
   item a 0 * item b 1 - item a 1 * item b 0].

Definition multiplyMatrices (a b : list float) : list float :=
  flat_map
    (fun i =>
       map (fun j =>
              item a (i * 4 + 0) * item b (0 * 4 + j)
              + item a (i * 4 + 1) * item b (1 * 4 + j)
              + item a (i * 4 + 2) * item b (2 * 4 + j)
              + item a (i * 4 + 3) * item b (3 * 4 + j))
           (seq 0 4))
    (seq 0 4).

(** The model-view matrix that [renderBlackHole] hands to the shader. *)
Definition blackHoleModelView (view : list float) (mass : float)
    : list float :=
  let scale := mass * 0.1 in
  let scaleMatrix := [scale; 0; 0; 0;
                      0; scale; 0; 0;
                      0; 0; scale; 0;
                      0; 0; 0; 1] in
  multiplyMatrices view scaleMatrix.

(** The unit matrix. *)
Definition identity : list float :=
  [1; 0; 0; 0;
   0; 1; 0; 0;
   0; 0; 1; 0;
   0; 0; 0; 1].

(** Two doubles that are the same number: the same double, or two zeros,
    whose signs may differ. *)
Definition same_number (u v : float) : Prop :=
  u = v \/ ((u =? 0) = true /\ (v =? 0) = true).

End Matrices.

(* ================================================================== *)
(** ** The meshes *)
(* ================================================================== *)

(** The arrays that the [create...Geometry] methods fill before they upload
    them: [vertices] goes to a [Float32Array], [indices] to a
    [Uint16Array], which keeps each index modulo [2^16].  Loop counters are
    natural numbers; where a counter enters the arithmetic it is the double
    of that value. *)

Module Geometry.

Import ListNotations.
Import Binary64.
Local Open Scope list_scope.

(** A loop counter as a Number. *)
Definition num (n : nat) : float := Z2float (Z.of_nat n).

Definition Math_PI : float := 3.141592653589793%float.

(** One element of [new Uint16Array(indices)]. *)
Definition toUint16 (n : nat) : nat := n mod 2 ^ 16.

Record Mesh : Set := mkMesh {
  vertices : list float;
  indexBuffer : list nat;
  vertexCount : nat
}.

(** *** The grid *)

Definition gridVertices : list float :=
  let size := 20%float in
  let segments := 40%nat in
  let step := (size / num segments)%float in
  flat_map
    (fun i =>
       flat_map
         (fun j =>
            let x := ((num i - num segments / 2) * step)%float in
            let z := ((num j - num segments / 2) * step)%float in
            [x; 0%float; z])
         (seq 0 (segments + 1)))
    (seq 0 (segments + 1)).

Definition gridIndices : list nat :=
  let segments := 40 in
  flat_map
    (fun i =>
       flat_map
         (fun j =>
            let a := i * (segments + 1) + j in
            let b := a + 1 in
            let c := a + (segments + 1) in
            let d := c + 1 in
            [a; b; c] ++ [b; d; c])
         (seq 0 segments))
    (seq 0 segments).

Definition createGridGeometry : Mesh :=
  {| vertices := gridVertices;
     indexBuffer := map toUint16 gridIndices;
     vertexCount := List.length gridIndices |}.

(** *** The sphere and the accretion disk *)

Section WithHost.

Variable Math_cos : float -> float.
Variable Math_sin : float -> float.
(** The number that the [k]-th call of [Math.random] returns. *)
Variable Math_random : nat -> float.

Definition sphereVertices (radius : float)
    (widthSegments heightSegments : nat) : list float :=
  flat_map
    (fun y =>
       let v := (num y / num heightSegments)%float in
       let phi := (v * Math_PI)%float in
       flat_map
         (fun x =>
            let u := (num x / num widthSegments)%float in
            let theta := (u * Math_PI * 2)%float in
            let px := (- radius * Math_cos theta * Math_sin phi)%float in
            let py := (radius * Math_cos phi)%float in
            let pz := (radius * Math_sin theta * Math_sin phi)%float in
            let nx := (px / radius)%float in
            let ny := (py / radius)%float in
            let nz := (pz / radius)%float in
            [px; py; pz; nx; ny; nz])
         (seq 0 (widthSegments + 1)))
    (seq 0 (heightSegments + 1)).

Definition sphereIndices (widthSegments heightSegments : nat) : list nat :=
  flat_map
    (fun y =>
       flat_map
         (fun x =>
            let a := y * (widthSegments + 1) + x in
            let b := a + 1 in
            let c := a + (widthSegments + 1) in
            let d := c + 1 in
            [a; b; c] ++ [b; d; c])
         (seq 0 widthSegments))
    (seq 0 heightSegments).

Definition createSphereGeometry (radius : float)
    (widthSegments heightSegments : nat) : Mesh :=
  {| vertices := sphereVertices radius widthSegments heightSegments;
     indexBuffer := map toUint16 (sphereIndices widthSegments heightSegments);
     vertexCount :=
       List.length (sphereIndices widthSegments heightSegments) |}.

Definition accretionDiskVertices (accretionThickness : float) : list float :=
  let innerRadius := 1.5%float in
  let outerRadius := 5.0%float in
  let radialSegments := 60%nat in
  let rings := 20%nat in
  flat_map
    (fun ring =>
       let v := (num ring / num rings)%float in
       let radius := (innerRadius + (outerRadius - innerRadius) * v)%float in
       let y := ((Math_random ring - 0.5) * 0.1 * accretionThickness)%float in
       flat_map
         (fun segment =>
            let u := (num segment / num radialSegments)%float in
            let theta := (u * Math_PI * 2)%float in
            let x := (Math_cos theta * radius)%float in
            let z := (Math_sin theta * radius)%float in
            [x; y; z; u; v])
         (seq 0 (radialSegments + 1)))
    (seq 0 (rings + 1)).

Definition accretionDiskIndices : list nat :=
  let radialSegments := 60 in
  let rings := 20 in
  flat_map
    (fun ring =>
       flat_map
         (fun segment =>
            let a := ring * (radialSegments + 1) + segment in
            let b := a + 1 in
            let c := a + (radialSegments + 1) in
            let d := c + 1 in
            [a; b; c] ++ [b; d; c])
         (seq 0 radialSegments))
    (seq 0 rings).

Definition createAccretionDiskGeometry (accretionThickness : float) : Mesh :=
  {| vertices := accretionDiskVertices accretionThickness;
     indexBuffer := map toUint16 accretionDiskIndices;
     vertexCount := List.length accretionDiskIndices |}.

End WithHost.

(** Every index of the mesh has its [floatsPerVertex] numbers inside the
    vertex array. *)
Definition indices_in_range (floatsPerVertex : nat) (m : Mesh) : Prop :=
  Forall (fun i => floatsPerVertex * i + floatsPerVertex
                   <= List.length (vertices m))
         (indexBuffer m).

End Geometry.

(* ================================================================== *)
(** ** What the description of formatting promises *)
(* ================================================================== *)

(** The description of [formatValue] speaks of thresholds, prefixes and
    two-decimal rounding.  These notions are stated here on the exact value
    of a double, independently of [toFixed], so that the code can be
    compared with them. *)

Module TwoDecimals.

Import Binary64.
Local Open Scope string_scope.
Local Open Scope float_scope.








End TwoDecimals.

(* ================================================================== *)
(** ** The order of binary64 values *)
(* ================================================================== *)

(** The comparisons of the source ([<], [<=], [>=], [===]) are IEEE
    comparisons.  Their specification compares sign, exponent and mantissa;
    the facts below are what the branch analysis of the library needs. *)

Module FloatOrder.

Local Open Scope float_scope.

Ltac sf_cases :=
  repeat match goal with
         | s : bool |- _ => destruct s
         | |- context [Pos.compare_cont Eq ?p ?q] =>
             change (Pos.compare_cont Eq p q) with (Pos.compare p q)
         end;
  cbn [CompOpp];
  repeat match goal with
         | |- context [Z.compare ?a ?b] => destruct (Z.compare_spec a b)
         | |- context [Pos.compare ?a ?b] => destruct (Pos.compare_spec a b)
         end;
  cbn [CompOpp]; intros;
  try discriminate; try reflexivity; try lia.

Lemma SFcompare_Lt_trans x y z :
  SFcompare x y = Some Lt -> SFcompare y z = Some Lt ->
  SFcompare x z = Some Lt.
Proof.
  destruct x as [sx|sx| |sx mx ex], y as [sy|sy| |sy my ey],
           z as [sz|sz| |sz mz ez]; cbn [SFcompare];
    try discriminate; sf_cases.
Qed.

Lemma SFcompare_Lt_Eq_trans x y z :
  SFcompare x y = Some Lt -> SFcompare y z = Some Eq ->
  SFcompare x z = Some Lt.
Proof.
  destruct x as [sx|sx| |sx mx ex], y as [sy|sy| |sy my ey],
           z as [sz|sz| |sz mz ez]; cbn [SFcompare];
    try discriminate; sf_cases.
Qed.

Lemma SFcompare_Lt_Gt x y :
  SFcompare x y = Some Lt -> SFcompare y x = Some Gt.
Proof.
  destruct x as [sx|sx| |sx mx ex], y as [sy|sy| |sy my ey];
    cbn [SFcompare]; try discriminate; sf_cases.
Qed.

Lemma ltb_compare x y :
  (x <? y) = true <-> SFcompare (Prim2SF x) (Prim2SF y) = Some Lt.
Proof.
  rewrite ltb_spec. unfold SFltb.
  destruct (SFcompare (Prim2SF x) (Prim2SF y)) as [[ | | ]|];
    split; intros H; try discriminate H; reflexivity.
Qed.

Lemma ltb_trans x y z : (x <? y) = true -> (y <? z) = true -> (x <? z) = true.
Proof.
  rewrite !ltb_compare. apply SFcompare_Lt_trans.
Qed.

Lemma ltb_leb_trans x y z : (x <? y) = true -> (y <=? z) = true -> (x <? z) = true.
Proof.
  rewrite !ltb_compare, leb_spec. unfold SFleb. intros Hxy Hyz.
  destruct (SFcompare (Prim2SF y) (Prim2SF z)) as [[ | | ]|] eqn:E;
    try discriminate Hyz.
  - eapply SFcompare_Lt_Eq_trans; eassumption.
  - eapply SFcompare_Lt_trans; eassumption.
Qed.

Lemma ltb_leb x y : (x <? y) = true -> (x <=? y) = true.
Proof.
  rewrite ltb_compare, leb_spec. unfold SFleb. intros ->. reflexivity.
Qed.

(** [x < y] excludes [x >= y]. *)
Lemma ltb_not_geb x y : (x <? y) = true -> (y <=? x) = false.
Proof.
  rewrite ltb_compare, leb_spec. unfold SFleb. intros H.
  rewrite (SFcompare_Lt_Gt _ _ H). reflexivity.
Qed.

(** A value that compares equal to zero is one of the two zeros. *)
Lemma eqb_zero_cases x : (x =? 0) = true -> x = 0 \/ x = (-0).
Proof.
  rewrite eqb_spec. intros H.
  rewrite <- (SF2Prim_Prim2SF x).
  destruct (Prim2SF x) as [s|s| |s m e]; cbn in H.
  - destruct s; [right|left]; reflexivity.
  - destruct s; discriminate H.
  - discriminate H.
  - destruct s; discriminate H.
Qed.

End FloatOrder.

(* ================================================================== *)
(** ** Properties of the binary64 embedding *)
(* ================================================================== *)

Module Binary64Spec.

Import Binary64 FloatOrder.
Local Open Scope string_scope.
Local Open Scope float_scope.

(** *** Arithmetic helpers *)

Lemma mul_comm (u v : float) : u * v = v * u.
Proof.
  apply Prim2SF_inj. rewrite !mul_spec. unfold SF64mul, SFmul.
  destruct (Prim2SF u) as [su|su| |su mu eu],
           (Prim2SF v) as [sv|sv| |sv mv ev];
    try reflexivity; try (rewrite xorb_comm; reflexivity).
  rewrite xorb_comm, Pos.mul_comm, Z.add_comm. reflexivity.
Qed.

(** Below every threshold under [b] when below [a < b]. *)
Lemma geb_weaken (a b v : float) :
  (a <? b) = true -> (a <=? v) = false -> (b <=? v) = false.
Proof.
  intros Hab Hav. destruct (b <=? v) eqn:Hbv; [|reflexivity].
  rewrite (ltb_leb _ _ (ltb_leb_trans _ _ _ Hab Hbv)) in Hav.
  discriminate Hav.
Qed.

(** *** Radii *)

(** C7: for every mass the event-horizon radius is the Schwarzschild radius
    and the photon-sphere radius is 1.5 times the Schwarzschild radius
    (the product is the same double in either order). *)
Theorem horizon_and_photon_sphere (mass : float) :
  calculateEventHorizon mass = calculateSchwarzschildRadius mass /\
  calculatePhotonSphere mass = 1.5 * calculateSchwarzschildRadius mass /\
  calculatePhotonSphere mass = calculateSchwarzschildRadius mass * 1.5.
Proof.
  split; [reflexivity|]. split; [apply mul_comm | reflexivity].
Qed.

(** C4, as amended: the Schwarzschild radius is
    [2 * G * (mass * solarMass) / c^2 / 1000] with the three constants of
    the library, and at ten solar masses it is the double
    29.541265550554051, which is 29.54 km at two decimals. *)
Theorem schwarzschild_radius_formula_and_value :
  (forall mass : float,
      calculateSchwarzschildRadius mass
      = ((2 * G * (mass * solarMass)) / (c * c)) / 1000) /\
  G = 6.67430e-11 /\ c = 299792458 /\ solarMass = 1.989e30 /\
  calculateSchwarzschildRadius 10 = 29.541265550554051 /\
  (29.54 <? calculateSchwarzschildRadius 10) = true /\
  (calculateSchwarzschildRadius 10 <? 29.55) = true /\
  toFixed (calculateSchwarzschildRadius 10) 2 = "29.54".
Proof.
  repeat split; vm_compute; reflexivity.
Qed.

(** C4 as stated fails: the radius at ten solar masses is more than 0.005
    away from 29.53, and it is displayed as 29.54 km. *)
Lemma schwarzschild_radius_ten_is_not_29_53 :
  (abs (calculateSchwarzschildRadius 10 - 29.53) <? 0.005) = false /\
  (29.535 <? calculateSchwarzschildRadius 10) = true /\
  formatValue (calculateSchwarzschildRadius 10) "km" = "29.54 km".
Proof.
  repeat split; vm_compute; reflexivity.
Qed.

(** *** Guards *)

(** C5: at impact parameter zero the lensing angle is exactly zero for
    every mass (the guard is taken by both zeros, so the division is not
    reached), and at every other impact parameter it is [4 * rs / b]. *)
Theorem lensing_angle_guard (mass : float) :
  calculateLensingAngle mass 0 = 0 /\
  calculateLensingAngle mass (-0) = 0 /\
  (forall impactParameter,
      (impactParameter =? 0) = false ->
      calculateLensingAngle mass impactParameter
      = (4 * calculateSchwarzschildRadius mass) / impactParameter).
Proof.
  split; [reflexivity|]. split; [reflexivity|].
  intros impactParameter H. unfold calculateLensingAngle.
  rewrite H. reflexivity.
Qed.

Lemma lensing_angle_guard_witness :
  calculateLensingAngle 10 2
  = (4 * calculateSchwarzschildRadius 10) / 2.
Proof.
  apply (proj2 (proj2 (lensing_angle_guard 10)) 2). reflexivity.
Defined.

(** The distance of a position whose coordinates all compare equal to zero
    is zero, whatever the signs of the zeros. *)
Lemma origin_distance (px py pz : float) :
  (px =? 0) = true -> (py =? 0) = true -> (pz =? 0) = true ->
  Math_sqrt (px * px + py * py + pz * pz) = 0.
Proof.
  intros Hx Hy Hz.
  destruct (eqb_zero_cases _ Hx) as [-> | ->],
           (eqb_zero_cases _ Hy) as [-> | ->],
           (eqb_zero_cases _ Hz) as [-> | ->]; reflexivity.
Qed.

(** C6: at the origin the curvature is exactly zero and the ray comes back
    unchanged, for every mass and ray; both functions are total, the origin
    being an ordinary branch; and where the distance is not zero the
    curvature is [rs / distance^2 * 100]. *)
Theorem origin_guards (mass : float) (ray : vec3) :
  calculateSpacetimeCurvature mass 0 0 0 = 0 /\
  applyGravitationalLensing ray mass {| x := 0; y := 0; z := 0 |} = ray /\
  (forall position,
      (x position =? 0) = true -> (y position =? 0) = true ->
      (z position =? 0) = true ->
      calculateSpacetimeCurvature mass (x position) (y position) (z position)
      = 0 /\
      applyGravitationalLensing ray mass position = ray) /\
  (forall px py pz,
      let dist := Math_sqrt (px * px + py * py + pz * pz) in
      (dist =? 0) = false ->
      calculateSpacetimeCurvature mass px py pz
      = (calculateSchwarzschildRadius mass / (dist * dist)) * 100).
Proof.
  split; [reflexivity|]. split; [reflexivity|]. split.
  - intros position Hx Hy Hz.
    unfold calculateSpacetimeCurvature, applyGravitationalLensing.
    rewrite (origin_distance _ _ _ Hx Hy Hz). split; reflexivity.
  - intros px py pz dist H. unfold calculateSpacetimeCurvature.
    fold dist. rewrite H. reflexivity.
Qed.

Lemma origin_guards_witness :
  calculateSpacetimeCurvature 10 (-0) 0 (-0) = 0 /\
  applyGravitationalLensing {| x := 1; y := 2; z := 3 |} 10
    {| x := -0; y := 0; z := -0 |} = {| x := 1; y := 2; z := 3 |} /\
  calculateSpacetimeCurvature 10 3 4 0
  = (calculateSchwarzschildRadius 10
     / (Math_sqrt (3 * 3 + 4 * 4 + 0 * 0) * Math_sqrt (3 * 3 + 4 * 4 + 0 * 0)))
    * 100.
Proof.
  pose proof (origin_guards 10 {| x := 1; y := 2; z := 3 |})
    as (_ & _ & Hzero & Hfar).
  destruct (Hzero {| x := -0; y := 0; z := -0 |}
              eq_refl eq_refl eq_refl) as [Hc Hr].
  split; [exact Hc|]. split; [exact Hr|].
  apply (Hfar 3 4 0). reflexivity.
Defined.

(** *** Accretion colour *)

(** C9: the colour does not depend on the mass argument, for every radius
    and colour-temperature parameter and whatever [Math.pow] computes. *)
Theorem accretion_colour_ignores_mass
    (Math_pow : float -> float -> float) (m1 m2 radius colorTemp : float) :
  calculateAccretionTemperature Math_pow m1 radius colorTemp
  = calculateAccretionTemperature Math_pow m2 radius colorTemp.
Proof. reflexivity. Qed.

(** The red channel on the two sides of [temp = 0.33]: the greatest double
    below 0.33 is in the cool band, 0.33 itself opens the medium band. *)
Lemma red_channel_across_033 :
  next_down 0.33 = 0.32999999999999996 /\
  r (temperatureToColor (next_down 0.33)) = 0.98999999999999988 /\
  r (temperatureToColor 0.33) = 0.33 /\
  g (temperatureToColor (next_down 0.33)) = 0.82499999999999996 /\
  g (temperatureToColor 0.33) = 0.83.
Proof.
  repeat split; vm_compute; reflexivity.
Qed.

(** *** The innermost stable orbit without spin *)

(** With a [Math.pow] that gives [pow(1, 1/3) = 1], the orbit at spin zero
    is six Schwarzschild radii. *)
Lemma isco_nonrotating (Math_pow : float -> float -> float) (mass : float) :
  Math_pow 1 (1 / 3) = 1 ->
  calculateISCO Math_pow mass 0 = calculateSchwarzschildRadius mass * 6.
Proof.
  intros Hpow. unfold calculateISCO. cbv zeta.
  change (1 - 0 * 0) with 1. change (1 + 0) with 1. change (1 - 0) with 1.
  rewrite Hpow. reflexivity.
Qed.

Lemma isco_nonrotating_ten (Math_pow : float -> float -> float) :
  Math_pow 1 (1 / 3) = 1 ->
  calculateISCO Math_pow 10 0 = 177.24759330332432 /\
  3 * calculateSchwarzschildRadius 10 = 88.623796651662161.
Proof.
  intros Hpow. rewrite (isco_nonrotating _ _ Hpow).
  split; vm_compute; reflexivity.
Qed.

(** *** Time dilation *)

Lemma time_dilation_branches (mass radius : float) :
  ((radius <=? calculateSchwarzschildRadius mass) = true ->
   calculateTimeDilation mass radius = 0) /\
  ((radius <=? calculateSchwarzschildRadius mass) = false ->
   calculateTimeDilation mass radius
   = Math_sqrt (1 - calculateSchwarzschildRadius mass / radius)).
Proof.
  unfold calculateTimeDilation.
  split; intros H; rewrite H; reflexivity.
Qed.

(** A finite double is a zero or has a mantissa and an exponent. *)
Lemma finite_cases (v : float) :
  is_finite v = true ->
  (exists s, Prim2SF v = S754_zero s) \/
  (exists s m e, Prim2SF v = S754_finite s m e).
Proof.
  unfold is_finite, is_infinity, is_nan.
  rewrite !eqb_spec, abs_spec.
  destruct (Prim2SF v) as [s|s| |s m e]; intros Hfin.
  - left. exists s. reflexivity.
  - destruct s; vm_compute in Hfin; discriminate Hfin.
  - vm_compute in Hfin. discriminate Hfin.
  - right. exists s, m, e. reflexivity.
Qed.

(** At an infinite radius the factor is exactly 1 whenever the
    Schwarzschild radius is finite. *)
Lemma time_dilation_at_infinity (mass : float) :
  is_finite (calculateSchwarzschildRadius mass) = true ->
  calculateTimeDilation mass infinity = 1.
Proof.
  unfold calculateTimeDilation.
  generalize (calculateSchwarzschildRadius mass). intros rs Hfin.
  apply finite_cases in Hfin.
  assert (Hleb : (infinity <=? rs) = false).
  { rewrite leb_spec.
    destruct Hfin as [[s ->] | (s & m & e & ->)]; reflexivity. }
  assert (Hdiv : rs / infinity = 0 \/ rs / infinity = (-0)).
  { rewrite <- (SF2Prim_Prim2SF (rs / infinity)), div_spec.
    destruct Hfin as [[s ->] | (s & m & e & ->)];
      destruct s; (left; reflexivity) || (right; reflexivity). }
  rewrite Hleb.
  destruct Hdiv as [-> | ->]; reflexivity.
Qed.

Lemma time_dilation_ten :
  calculateTimeDilation 10 infinity = 1 /\
  calculateTimeDilation 10 29.541265550554051 = 0 /\
  calculateTimeDilation 10 1e20 = 1 /\
  calculateTimeDilation 10 59.082531101108103 = 0.70710678118654757.
Proof.
  repeat split; vm_compute; reflexivity.
Qed.

(** *** Formatting *)


(** The three comparisons of [formatValue] all fail below 1. *)
Lemma below_one_is_milli (value : float) (unit : string) :
  (1 <=? value) = false ->
  formatValue value unit = toFixed (value * 1000) 2 ++ " m" ++ unit.
Proof.
  intros H1. unfold formatValue.
  rewrite (geb_weaken 1 1e6 value eq_refl H1).
  rewrite (geb_weaken 1 1e3 value eq_refl H1).
  rewrite H1. reflexivity.
Qed.

(** Splitting a string at a position inside it. *)
Lemma substring_length (s : string) (n m : nat) :
  (n + m <= String.length s)%nat -> String.length (substring n m s) = m.
Proof.
  revert n m. induction s as [|a s IH]; intros n m H; cbn in H.
  - destruct n, m; cbn; try reflexivity; lia.
  - destruct n as [|n]; cbn.
    + destruct m as [|m]; cbn; [reflexivity|].
      f_equal. apply (IH 0%nat m). lia.
    + apply IH. lia.
Qed.

Lemma substring_split (s : string) (k : nat) :
  (k <= String.length s)%nat ->
  substring 0 k s ++ substring k (String.length s - k) s = s.
Proof.
  revert k. induction s as [|a s IH]; intros k H; cbn in H.
  - destruct k; [reflexivity | lia].
  - destruct k as [|k]; cbn.
    + f_equal. specialize (IH 0%nat ltac:(lia)).
      rewrite Nat.sub_0_r in IH. destruct s; [reflexivity|].
      cbn in IH |- *. exact IH.
    + f_equal. apply IH. lia.
Qed.

Lemma zeros_length (k : nat) : String.length (zeros k) = k.
Proof. induction k; cbn; congruence. Qed.

Lemma append_length (s t : string) :
  String.length (s ++ t) = (String.length s + String.length t)%nat.
Proof. induction s; cbn; congruence. Qed.

(** With [f > 0] fraction digits the fixed notation is an integer part of
    at least one character, a point, and exactly [f] characters; taken
    together the two parts are the digits of [n], zero-padded. *)
Lemma fixed_notation_shape (n : Z) (f : nat) :
  (0 < f)%nat ->
  exists a b,
    fixed_notation n f = a ++ "." ++ b /\
    String.length b = f /\ (1 <= String.length a)%nat /\
    a ++ b = zeros (f + 1 - String.length (decimal n)) ++ decimal n.
Proof.
  intros Hf. unfold fixed_notation.
  destruct f as [|f']; [lia|]. set (f := S f') in *.
  set (d := decimal n).
  assert (Hpad : (if (String.length d <=? f)%nat
                  then zeros (f + 1 - String.length d) ++ d else d)
                 = zeros (f + 1 - String.length d) ++ d).
  { destruct (Nat.leb_spec (String.length d) f) as [Hle|Hgt];
      [reflexivity|].
    replace (f + 1 - String.length d)%nat with 0%nat by lia.
    reflexivity. }
  rewrite Hpad. set (m := zeros (f + 1 - String.length d) ++ d).
  assert (Hlen : (f + 1 <= String.length m)%nat).
  { unfold m. rewrite append_length, zeros_length. lia. }
  exists (substring 0 (String.length m - f) m),
         (substring (String.length m - f) f m).
  split; [reflexivity|]. split; [apply substring_length; lia|]. split.
  - rewrite substring_length; lia.
  - pose proof (substring_split m (String.length m - f) ltac:(lia)) as H.
    replace (String.length m - (String.length m - f))%nat with f in H
      by lia.
    exact H.
Qed.

(** Below [10^21] in magnitude, [toFixed] writes the sign and the fixed
    notation of the nearest scaled integer. *)
Lemma toFixed_below_cutoff (v : float) (f : nat) (s : bool) (m : positive)
    (e : Z) :
  Prim2SF v = S754_finite s m e ->
  (abs v <? 1e21) = true ->
  toFixed v f
  = (if s then "-" else "")
    ++ fixed_notation (nearest_scaled (Zpos m) e f) f.
Proof.
  intros Hv Hlt. unfold toFixed. rewrite Hv.
  rewrite (ltb_not_geb _ _ Hlt). reflexivity.
Qed.

(** Below [10^21] in magnitude [toFixed(2)] gives an optional minus sign,
    at least one character, a point and exactly two characters. *)
Lemma toFixed_two_decimals (v : float) :
  (abs v <? 1e21) = true ->
  exists sign a b,
    toFixed v 2 = sign ++ a ++ "." ++ b /\
    (sign = "" \/ sign = "-") /\
    (1 <= String.length a)%nat /\ String.length b = 2%nat.
Proof.
  intros Hlt.
  destruct (Prim2SF v) as [s|s| |s m e] eqn:Hv.
  - destruct (fixed_notation_shape 0 2 ltac:(lia)) as (a & b & Hab & Hb & Ha & _).
    exists "", a, b. unfold toFixed. rewrite Hv. cbn [append]. auto.
  - rewrite ltb_spec, abs_spec, Hv in Hlt. discriminate Hlt.
  - rewrite ltb_spec, abs_spec, Hv in Hlt. discriminate Hlt.
  - destruct (fixed_notation_shape (nearest_scaled (Zpos m) e 2) 2 ltac:(lia))
      as (a & b & Hab & Hb & Ha & _).
    exists (if s then "-" else ""), a, b.
    rewrite (toFixed_below_cutoff v 2 s m e Hv Hlt), Hab.
    destruct s; auto.
Qed.

(** Where [toFixed] leaves fixed notation: at magnitude [10^21] and above
    the number is written by [Number::toString], in exponent notation. *)
Lemma toFixed_large_magnitudes :
  toFixed 999999999999999868928 2 = "999999999999999868928.00" /\
  toFixed 1e21 2 = "1e+21" /\
  toFixed 1e23 2 = "1e+23" /\
  toFixed (-1.2345e30) 2 = "-1.2345e+30" /\
  formatValue (-1e18) "km" = "-1e+21 mkm" /\
  formatValue 1e27 "km" = "1e+21 Mkm".
Proof.
  repeat split; vm_compute; reflexivity.
Qed.

(** Rounding by [toFixed] works on the exact binary value. *)
Lemma toFixed_rounding_samples :
  toFixed 1.005 2 = "1.00" /\ toFixed 8.345 2 = "8.35" /\
  toFixed 0.125 2 = "0.13" /\ toFixed (-0.125) 2 = "-0.13" /\
  toFixed 999.995 2 = "1000.00" /\ toFixed 0.004 2 = "0.00" /\
  toFixed nan 2 = "NaN" /\ toFixed neg_infinity 2 = "-Infinity".
Proof.
  repeat split; vm_compute; reflexivity.
Qed.

(** *** Formatting against its description *)

Import TwoDecimals.














(** *** Time dilation against its description *)

(** C3, as amended: the factor is exactly 0 when the radius is at most
    the Schwarzschild radius and the square root of [1 - rs / radius] when
    it is larger, for every mass; and at an infinite radius it is exactly
    1, provided the Schwarzschild radius is finite. *)
Theorem time_dilation_guard_and_limit (mass radius : float) :
  let rs := calculateSchwarzschildRadius mass in
  ((radius <=? rs) = true -> calculateTimeDilation mass radius = 0) /\
  ((rs <? radius) = true ->
   calculateTimeDilation mass radius = Math_sqrt (1 - rs / radius)) /\
  (is_finite rs = true -> calculateTimeDilation mass infinity = 1).
Proof.
  cbv zeta. pose proof (time_dilation_branches mass radius) as [H0 H1].
  split; [exact H0|]. split.
  - intros H. apply H1, ltb_not_geb, H.
  - apply time_dilation_at_infinity.
Qed.

Lemma time_dilation_guard_and_limit_witness :
  calculateTimeDilation 10 29 = 0 /\
  calculateTimeDilation 10 100
  = Math_sqrt (1 - calculateSchwarzschildRadius 10 / 100) /\
  calculateTimeDilation 10 infinity = 1.
Proof.
  split; [|split].
  - apply (proj1 (time_dilation_guard_and_limit 10 29)). reflexivity.
  - apply (proj1 (proj2 (time_dilation_guard_and_limit 10 100))).
    reflexivity.
  - apply (proj2 (proj2 (time_dilation_guard_and_limit 10 0))).
    reflexivity.
Defined.

(** C3, as stated, fails at mass 9.1e277: the mass is positive, its
    Schwarzschild radius overflows to Infinity, and the factor is 0 at
    every radius, the infinite one included. *)
Lemma time_dilation_of_overflowing_mass :
  (0 <? 9.1e277) = true /\
  calculateSchwarzschildRadius 9.1e277 = infinity /\
  calculateTimeDilation 9.1e277 infinity = 0 /\
  calculateTimeDilation 9.1e277 1e300 = 0 /\
  (forall radius,
      (radius =? radius) = true -> calculateTimeDilation 9.1e277 radius = 0).
Proof.
  split; [reflexivity|]. split; [vm_compute; reflexivity|].
  split; [vm_compute; reflexivity|]. split; [vm_compute; reflexivity|].
  intros radius Hnum. unfold calculateTimeDilation. cbv zeta.
  replace (calculateSchwarzschildRadius 9.1e277) with infinity
    by (vm_compute; reflexivity).
  assert (Hle : (radius <=? infinity) = true).
  { rewrite leb_spec. rewrite eqb_spec in Hnum.
    destruct (Prim2SF radius) as [s|s| |s m e];
      try destruct s; try reflexivity; discriminate Hnum. }
  rewrite Hle. reflexivity.
Qed.

End Binary64Spec.

(* ================================================================== *)
(** ** Properties of the embedding over the reals *)
(* ================================================================== *)

Module IdealSpec.

Import Ideal.
Local Open Scope R_scope.

(** *** The Schwarzschild radius *)

Lemma schwarzschild_radius_linear (mass : R) :
  calculateSchwarzschildRadius mass
  = mass * calculateSchwarzschildRadius 1.
Proof.
  unfold calculateSchwarzschildRadius, G, c, solarMass. field.
Qed.

Lemma schwarzschild_radius_one :
  2.95412 < calculateSchwarzschildRadius 1 < 2.95413.
Proof.
  unfold calculateSchwarzschildRadius, G, c, solarMass. lra.
Qed.

Lemma schwarzschild_radius_pos (mass : R) :
  0 < mass -> 0 < calculateSchwarzschildRadius mass.
Proof.
  intros Hm. rewrite schwarzschild_radius_linear.
  pose proof schwarzschild_radius_one. nra.
Qed.

Lemma schwarzschild_radius_ten :
  29.5412 < calculateSchwarzschildRadius 10 < 29.5413.
Proof.
  rewrite schwarzschild_radius_linear.
  pose proof schwarzschild_radius_one. lra.
Qed.

Lemma ideal_horizon_and_photon_sphere (mass : R) :
  calculateEventHorizon mass = calculateSchwarzschildRadius mass /\
  calculatePhotonSphere mass = 1.5 * calculateSchwarzschildRadius mass.
Proof.
  split; [reflexivity|]. unfold calculatePhotonSphere. ring.
Qed.

(** *** The innermost stable orbit without spin *)

Lemma Math_pow_one (exponent : R) : Math_pow 1 exponent = 1.
Proof.
  unfold Math_pow. destruct (Rlt_dec 0 1) as [_|H]; [|lra].
  unfold Rpower. rewrite ln_1, Rmult_0_r. apply exp_0.
Qed.

(** C1 fails on the code: at spin zero [Z1 = 3] and [Z2 = 3], the inner
    square root vanishes, and the result is [rs * (3 + 3 - 0)]: six
    Schwarzschild radii, twice the [3 * rs] that the function's own
    documentation gives for the non-rotating case. *)
Theorem isco_nonrotating_is_six_rs (mass : R) :
  0 < mass ->
  calculateISCO mass 0 = 6 * calculateSchwarzschildRadius mass /\
  calculateISCO mass 0 <> 3 * calculateSchwarzschildRadius mass.
Proof.
  intros Hm.
  assert (H6 : calculateISCO mass 0 = 6 * calculateSchwarzschildRadius mass).
  { unfold calculateISCO, Math_sqrt. cbv zeta.
    replace (1 - 0 * 0) with 1 by ring.
    replace (1 + 0) with 1 by ring.
    replace (1 - 0) with 1 by ring.
    rewrite !Math_pow_one.
    replace (1 + 1 * (1 + 1)) with 3 by ring.
    replace (3 * 0 * 0 + 3 * 3) with (3 * 3) by ring.
    rewrite (sqrt_square 3) by lra.
    replace ((3 - 3) * (3 + 3 + 2 * 3)) with 0 by ring.
    rewrite sqrt_0. ring. }
  split; [exact H6|]. rewrite H6.
  pose proof (schwarzschild_radius_pos mass Hm). lra.
Qed.

Lemma isco_nonrotating_is_six_rs_witness :
  calculateISCO 10 0 = 6 * calculateSchwarzschildRadius 10 /\
  calculateISCO 10 0 <> 3 * calculateSchwarzschildRadius 10.
Proof.
  apply (isco_nonrotating_is_six_rs 10). lra.
Defined.

(** *** Time dilation *)

Lemma sqrt_unit_interval (v : R) : 0 <= v <= 1 -> v <= sqrt v <= 1.
Proof.
  intros Hv. pose proof (sqrt_pos v) as Hs.
  pose proof (sqrt_sqrt v ltac:(lra)) as Hss.
  assert (sqrt v <= 1) by nra. split; [nra | assumption].
Qed.

(** Over the reals, for every positive mass: the factor is exactly 0 at
    and inside the Schwarzschild radius, it is [sqrt (1 - rs / radius)]
    outside, and it tends to 1 as the radius grows without bound. *)
Theorem time_dilation_spec (mass : R) :
  0 < mass ->
  (forall radius,
      radius <= calculateSchwarzschildRadius mass ->
      calculateTimeDilation mass radius = 0) /\
  (forall radius,
      calculateSchwarzschildRadius mass < radius ->
      calculateTimeDilation mass radius
      = sqrt (1 - calculateSchwarzschildRadius mass / radius)) /\
  limit_at_infinity (calculateTimeDilation mass) 1.
Proof.
  intros Hm. pose proof (schwarzschild_radius_pos mass Hm) as Hrs.
  assert (Hout : forall radius,
             calculateSchwarzschildRadius mass < radius ->
             calculateTimeDilation mass radius
             = sqrt (1 - calculateSchwarzschildRadius mass / radius)).
  { intros radius H. unfold calculateTimeDilation, Math_sqrt. cbv zeta.
    destruct (Rle_dec radius (calculateSchwarzschildRadius mass));
      [lra | reflexivity]. }
  split; [|split; [exact Hout|]].
  - intros radius H. unfold calculateTimeDilation. cbv zeta.
    destruct (Rle_dec radius (calculateSchwarzschildRadius mass));
      [reflexivity | lra].
  - intros eps Heps. set (rs := calculateSchwarzschildRadius mass) in *.
    exists (Rmax rs (rs / eps)). intros t Ht.
    pose proof (Rmax_l rs (rs / eps)) as Hl.
    pose proof (Rmax_r rs (rs / eps)) as Hr.
    assert (Ht0 : 0 < t) by lra.
    rewrite (Hout t) by lra.
    assert (Hu : 0 < rs / t < 1).
    { split; [apply Rdiv_lt_0_compat; lra|].
      apply (Rmult_lt_reg_r t); [lra|]. field_simplify; lra. }
    assert (Hue : rs / t < eps).
    { apply (Rmult_lt_reg_r t); [lra|].
      replace (rs / t * t) with rs by (field; lra).
      apply (Rmult_lt_reg_r (/ eps)); [apply Rinv_0_lt_compat; lra|].
      replace (eps * t * / eps) with t by (field; lra).
      unfold Rdiv in Hr. lra. }
    pose proof (sqrt_unit_interval (1 - rs / t) ltac:(lra)) as Hs.
    rewrite Rabs_left1 by lra. lra.
Qed.

Lemma time_dilation_spec_witness :
  (forall radius,
      radius <= calculateSchwarzschildRadius 10 ->
      calculateTimeDilation 10 radius = 0) /\
  (forall radius,
      calculateSchwarzschildRadius 10 < radius ->
      calculateTimeDilation 10 radius
      = sqrt (1 - calculateSchwarzschildRadius 10 / radius)) /\
  limit_at_infinity (calculateTimeDilation 10) 1.
Proof.
  apply (time_dilation_spec 10). lra.
Defined.

(** *** Accretion colour *)

(** A function within [k * (a - t)] of [l] just below [a] tends to [l]
    from below. *)
Lemma left_limit_of_bound (f : R -> R) (a l k lo : R) :
  lo < a -> 0 <= k ->
  (forall t, lo < t < a -> Rabs (f t - l) <= k * (a - t)) ->
  left_limit f a l.
Proof.
  intros Hlo Hk Hf eps Heps.
  exists (Rmin (a - lo) (eps / (k + 1))).
  assert (Hq : 0 < eps / (k + 1)) by (apply Rdiv_lt_0_compat; lra).
  split; [apply Rmin_pos; lra|].
  intros t [Ht1 Ht2].
  pose proof (Rmin_l (a - lo) (eps / (k + 1))) as Hl.
  pose proof (Rmin_r (a - lo) (eps / (k + 1))) as Hr.
  specialize (Hf t ltac:(lra)).
  assert (Hke : k * (eps / (k + 1)) < eps).
  { apply (Rmult_lt_reg_r (k + 1)); [lra|].
    replace (k * (eps / (k + 1)) * (k + 1)) with (k * eps)
      by (field; lra).
    nra. }
  assert (k * (a - t) <= k * (eps / (k + 1))) by nra.
  lra.
Qed.

Ltac colour_branch :=
  unfold red, green, blue, temperatureToColor; cbv zeta;
  repeat match goal with
         | |- context [Rlt_dec ?u ?v] => destruct (Rlt_dec u v); try lra
         end;
  cbn [r g b].

Ltac colour_left_limit lo :=
  apply (left_limit_of_bound _ _ _ 3 lo); [lra | lra |];
  intros t Ht; colour_branch; apply Rabs_le; lra.

(** The three channels on the two sides of each band boundary: the limit
    from below, and the value at the boundary, where the next band starts. *)
Lemma colour_at_band_boundaries :
  (left_limit red 0.33 0.99 /\ red 0.33 = 0.33) /\
  (left_limit green 0.33 0.825 /\ green 0.33 = 0.83) /\
  (left_limit blue 0.33 1 /\ blue 0.33 = 1) /\
  (left_limit red 0.66 0.9933 /\ red 0.66 = 1) /\
  (left_limit green 0.66 0.9983 /\ green 0.66 = 1) /\
  (left_limit blue 0.66 0.703 /\ blue 0.66 = 0.7).
Proof.
  repeat split;
    try (colour_left_limit 0.34); try (colour_left_limit 0);
    colour_branch; lra.
Qed.

(** [2^0.75], the factor by which the temperature falls at radius 2. *)
Lemma pow_two_three_quarters : 1.6817 < Math_pow 2 0.75 < 1.6818.
Proof.
  unfold Math_pow. destruct (Rlt_dec 0 2) as [_|H]; [|lra].
  set (p := Rpower 2 0.75).
  assert (Hp : 0 < p) by apply exp_pos.
  assert (H4 : p ^ 4 = 8).
  { rewrite <- (Rpower_pow 4 p Hp). unfold p. rewrite Rpower_mult.
    replace (0.75 * INR 4) with (INR 3) by (simpl; lra).
    rewrite Rpower_pow by lra. simpl. lra. }
  set (q := p * p).
  assert (Hq : q * q = 8) by (unfold q; simpl in H4; lra).
  assert (Hq0 : 0 < q) by (unfold q; nra).
  assert (Hq1 : 2.8281 < q) by nra.
  assert (Hq2 : q < 2.8285) by nra.
  unfold q in Hq1, Hq2. split; nra.
Qed.

(** C2 fails on the code.  Across [temp = 0.33] the red channel falls from
    nearly 0.99 to 0.33: any two temperatures within 0.01 of the boundary,
    one on each side, differ in red by more than 0.6, while green and blue
    stay within 0.04.  At radius 2 the colour parameters 0.1099 and 0.11
    fall on the two sides: red is above 0.98 for the first and below 0.34
    for the second. *)
Theorem red_channel_jumps_at_033 :
  (forall t1 t2,
      0.32 < t1 < 0.33 -> 0.33 <= t2 < 0.34 ->
      red t1 - red t2 > 0.6 /\
      Rabs (green t1 - green t2) < 0.04 /\
      Rabs (blue t1 - blue t2) < 0.04) /\
  (forall mass,
      r (calculateAccretionTemperature mass 2 0.1099) > 0.98 /\
      r (calculateAccretionTemperature mass 2 0.11) < 0.34) /\
  (left_limit red 0.33 0.99 /\ red 0.33 = 0.33).
Proof.
  split; [|split].
  - intros t1 t2 H1 H2. repeat split.
    + colour_branch. lra.
    + colour_branch. apply Rabs_def1; lra.
    + colour_branch. apply Rabs_def1; lra.
  - intros mass. pose proof pow_two_three_quarters as Hp.
    unfold calculateAccretionTemperature. cbv zeta.
    set (p := Math_pow 2 0.75) in *. clearbody p.
    assert (Hinv : 1.0 / p * p = 1)
      by (replace 1.0 with 1 by lra; field; lra).
    assert (Hlo : 0.5946 < 1.0 / p) by nra.
    assert (Hhi : 1.0 / p < 0.59464) by nra.
    split.
    + assert (Ht : 1.0 / p * (0.5 + 0.1099 * 0.5) < 0.33) by nra.
      assert (Ht' : 0.3299 < 1.0 / p * (0.5 + 0.1099 * 0.5)) by nra.
      colour_branch. lra.
    + assert (Ht : 0.33 <= 1.0 / p * (0.5 + 0.11 * 0.5)) by nra.
      assert (Ht' : 1.0 / p * (0.5 + 0.11 * 0.5) < 0.3301) by nra.
      colour_branch. lra.
  - apply colour_at_band_boundaries.
Qed.

Lemma red_channel_jumps_at_033_witness :
  red 0.3299 - red 0.33 > 0.6 /\
  Rabs (green 0.3299 - green 0.33) < 0.04 /\
  Rabs (blue 0.3299 - blue 0.33) < 0.04.
Proof.
  apply (proj1 red_channel_jumps_at_033); lra.
Defined.

End IdealSpec.

(* ================================================================== *)
(** ** Exact facts of binary64 arithmetic *)
(* ================================================================== *)

(** What holds of the rounded operations without any error term: the sign
    of a quotient, products and sums with zero, the product with one, and
    the difference taken the other way round. *)

Module FloatExact.

Import Matrices.
Local Open Scope float_scope.

Lemma round_aux_opp (s : bool) (m e : Z) (l : location) :
  binary_round_aux prec emax (negb s) m e l
  = SFopp (binary_round_aux prec emax s m e l).
Proof.
  unfold binary_round_aux.
  destruct (shr_fexp prec emax m e l) as [mrs e'].
  destruct (shr_fexp prec emax _ e' loc_Exact) as [mrs' e''].
  destruct (shr_m mrs'); [reflexivity| |reflexivity].
  destruct (e'' <=? emax - prec)%Z; reflexivity.
Qed.

Lemma round_opp (s : bool) (m : positive) (e : Z) :
  binary_round prec emax (negb s) m e
  = SFopp (binary_round prec emax s m e).
Proof.
  unfold binary_round.
  destruct (shl_align m e _) as [mz ez]. apply round_aux_opp.
Qed.

(** The quotient by the opposite is the opposite quotient. *)
Lemma div_opp_r (u v : float) : u / (- v) = - (u / v).
Proof.
  apply Prim2SF_inj. rewrite opp_spec, !div_spec, opp_spec.
  unfold SF64div, SFdiv.
  destruct (Prim2SF u) as [su|su| |su mu eu],
           (Prim2SF v) as [sv|sv| |sv mv ev];
    cbn [SFopp]; try reflexivity;
    try (rewrite <- negb_xorb_r; reflexivity).
  destruct (SFdiv_core_binary prec emax (Z.pos mu) eu (Z.pos mv) ev)
    as [[mz ez] lz].
  rewrite <- negb_xorb_r. apply round_aux_opp.
Qed.

Lemma eqb_zero_opp (v : float) : (- v =? 0) = (v =? 0).
Proof.
  rewrite !eqb_spec, opp_spec.
  destruct (Prim2SF v) as [s|s| |s m e]; try destruct s; reflexivity.
Qed.

Lemma same_number_refl (u : float) : same_number u u.
Proof. left. reflexivity. Qed.

Lemma same_number_trans (u v w : float) :
  same_number u v -> same_number v w -> same_number u w.
Proof.
  intros [-> | [Hu Hv]] [-> | [Hv' Hw]]; unfold same_number; auto.
Qed.

Lemma zero_cases (z : float) :
  (z =? 0) = true -> exists s, Prim2SF z = S754_zero s.
Proof.
  rewrite eqb_spec.
  destruct (Prim2SF z) as [s|s| |s m e]; intros H;
    try destruct s; try discriminate H; eauto.
Qed.

(** A finite number times zero is a zero. *)
Lemma mul_zero_r (v z : float) :
  is_finite v = true -> (z =? 0) = true -> (v * z =? 0) = true.
Proof.
  intros Hv Hz. apply zero_cases in Hz as [sz Hz].
  rewrite eqb_spec, mul_spec, Hz.
  destruct (Binary64Spec.finite_cases v Hv) as [[s ->] | (s & m & e & ->)];
    cbn; destruct (xorb s sz); reflexivity.
Qed.

Lemma mul_zero_l (z v : float) :
  is_finite v = true -> (z =? 0) = true -> (z * v =? 0) = true.
Proof.
  intros Hv Hz. apply zero_cases in Hz as [sz Hz].
  rewrite eqb_spec, mul_spec, Hz.
  destruct (Binary64Spec.finite_cases v Hv) as [[s ->] | (s & m & e & ->)];
    cbn; destruct (xorb sz s); reflexivity.
Qed.

(** Adding a zero does not change the number. *)
Lemma add_zero_r (u z : float) :
  (z =? 0) = true -> same_number (u + z) u.
Proof.
  intros Hz. apply zero_cases in Hz as [sz Hz].
  destruct (Prim2SF u) as [s|s| |s m e] eqn:Hu.
  - right. rewrite !eqb_spec, add_spec, Hu, Hz.
    destruct s, sz; split; reflexivity.
  - left. apply Prim2SF_inj. rewrite add_spec, Hu, Hz. reflexivity.
  - left. apply Prim2SF_inj. rewrite add_spec, Hu, Hz. reflexivity.
  - left. apply Prim2SF_inj. rewrite add_spec, Hu, Hz. reflexivity.
Qed.

Lemma add_zero_l (z u : float) :
  (z =? 0) = true -> same_number (z + u) u.
Proof.
  intros Hz. apply zero_cases in Hz as [sz Hz].
  destruct (Prim2SF u) as [s|s| |s m e] eqn:Hu.
  - right. rewrite !eqb_spec, add_spec, Hu, Hz.
    destruct s, sz; split; reflexivity.
  - left. apply Prim2SF_inj. rewrite add_spec, Hu, Hz. reflexivity.
  - left. apply Prim2SF_inj. rewrite add_spec, Hu, Hz. reflexivity.
  - left. apply Prim2SF_inj. rewrite add_spec, Hu, Hz. reflexivity.
Qed.

Lemma add_zeros (z z' : float) :
  (z =? 0) = true -> (z' =? 0) = true -> (z + z' =? 0) = true.
Proof.
  intros Hz Hz'. apply zero_cases in Hz as [s Hz].
  apply zero_cases in Hz' as [s' Hz'].
  rewrite eqb_spec, add_spec, Hz, Hz'. destruct s, s'; reflexivity.
Qed.

(** The product with one is exact. *)
Lemma mul_one_r (u : float) : u * 1 = u.
Proof.
  apply Prim2SF_inj. rewrite mul_spec.
  pose proof (Prim2SF_valid u) as Hvalid.
  change (Prim2SF 1) with (S754_finite false 4503599627370496 (-52)).
  unfold SF64mul, SFmul.
  destruct (Prim2SF u) as [s|s| |s m e];
    try (rewrite xorb_false_r; reflexivity); try reflexivity.
  rewrite xorb_false_r, Pos.mul_comm.
  cbn [valid_binary] in Hvalid. unfold bounded, canonical_mantissa in Hvalid.
  apply andb_prop in Hvalid as [Hcanon Hmax].
  apply Z.eqb_eq in Hcanon.
  unfold binary_round_aux, shr_fexp.
  assert (Hdigits :
            (Zdigits2 (Z.pos (4503599627370496 * m)) + (e + -52)
             = Z.pos (digits2_pos m) + e)%Z).
  { cbn [Pos.mul Zdigits2 digits2_pos]. lia. }
  rewrite Hdigits, Hcanon.
  replace (e - (e + -52))%Z with 52%Z by lia.
  cbv [shr shr_record_of_loc SpecFloat.iter_pos shr_1 Pos.mul orb fst snd
       loc_of_shr_record shr_m round_nearest_even].
  replace (e + -52 + 52)%Z with e by lia.
  change (Zdigits2 (Z.pos m)) with (Z.pos (digits2_pos m)).
  rewrite Hcanon, Z.sub_diag. cbn [shr_m]. rewrite Hmax. reflexivity.
Qed.

Lemma mul_one_l (u : float) : 1 * u = u.
Proof. rewrite Binary64Spec.mul_comm. apply mul_one_r. Qed.

(** A difference taken the other way round is the opposite number. *)
Lemma SFsub_antisym (x y : spec_float) :
  SFsub prec emax y x = SFopp (SFsub prec emax x y) \/
  (exists s s', SFsub prec emax y x = S754_zero s /\
                SFsub prec emax x y = S754_zero s').
Proof.
  destruct x as [sx|sx| |sx mx ex], y as [sy|sy| |sy my ey];
    try (left; reflexivity);
    try (left; destruct sx, sy; reflexivity);
    try (right; destruct sx, sy; eexists; eexists; split; reflexivity).
  unfold SFsub. rewrite (Z.min_comm ey ex).
  set (ez := Z.min ex ey).
  set (a := cond_Zopp sx (Z.pos (fst (shl_align mx ex ez)))).
  set (b := cond_Zopp sy (Z.pos (fst (shl_align my ey ez)))).
  replace (b - a)%Z with (- (a - b))%Z by lia.
  destruct (a - b)%Z as [|p|p]; cbn [Z.opp binary_normalize].
  - right. eexists. eexists. split; reflexivity.
  - left. apply (round_opp false).
  - left. rewrite (round_opp true). cbn [negb]. 
    destruct (binary_round prec emax true p ez) as [s|s| |s m e];
      cbn [SFopp]; try rewrite negb_involutive; reflexivity.
Qed.

Lemma sub_antisym (u v : float) : same_number (v - u) (- (u - v)).
Proof.
  destruct (SFsub_antisym (Prim2SF u) (Prim2SF v)) as [H | (s & s' & H & H')].
  - left. apply Prim2SF_inj. rewrite opp_spec, !sub_spec. exact H.
  - right. rewrite !eqb_spec, opp_spec, !sub_spec.
    unfold SF64sub. rewrite H, H'. destruct s, s'; split; reflexivity.
Qed.

(** A number minus itself is [+0], or NaN when it is not finite. *)
Lemma sub_diag (u : float) : u - u = 0 \/ u - u = nan.
Proof.
  assert (H : Prim2SF (u - u) = S754_zero false \/ Prim2SF (u - u) = S754_nan).
  { rewrite sub_spec. unfold SF64sub, SFsub.
    destruct (Prim2SF u) as [s|s| |s m e].
    - left. destruct s; reflexivity.
    - right. destruct s; reflexivity.
    - right. reflexivity.
    - left. rewrite Z.sub_diag. reflexivity. }
  destruct H as [H | H]; [left | right]; apply Prim2SF_inj; exact H.
Qed.

(** A finite number divided by Infinity is a zero. *)
Lemma div_infinity (v : float) :
  is_finite v = true -> (v / infinity =? 0) = true.
Proof.
  intros Hv. rewrite eqb_spec, div_spec.
  destruct (Binary64Spec.finite_cases v Hv) as [[s ->] | (s & m & e & ->)];
    destruct s; reflexivity.
Qed.

End FloatExact.

(* ================================================================== *)
(** ** Further properties of the physics library *)
(* ================================================================== *)

Module PhysicsMore.

Import Ideal IdealPhysics.
Local Open Scope R_scope.

(** *** Time dilation *)

Lemma time_dilation_outside (mass radius : R) :
  calculateSchwarzschildRadius mass < radius ->
  calculateTimeDilation mass radius
  = sqrt (1 - calculateSchwarzschildRadius mass / radius).
Proof.
  intros H. unfold calculateTimeDilation, Math_sqrt. cbv zeta.
  destruct (Rle_dec radius (calculateSchwarzschildRadius mass));
    [lra | reflexivity].
Qed.

Lemma time_dilation_inside (mass radius : R) :
  radius <= calculateSchwarzschildRadius mass ->
  calculateTimeDilation mass radius = 0.
Proof.
  intros H. unfold calculateTimeDilation. cbv zeta.
  destruct (Rle_dec radius (calculateSchwarzschildRadius mass));
    [reflexivity | lra].
Qed.

(** For a positive mass the factor stays between 0 and 1 at every
    radius, the negative ones included, and never decreases as the radius
    grows.  The bounds are not strict: in binary64 the factor is exactly 1
    from some radius on. *)
Theorem time_dilation_range_and_monotone (mass : R) :
  0 < mass ->
  (forall radius, 0 <= calculateTimeDilation mass radius <= 1) /\
  (forall r1 r2,
      r1 <= r2 ->
      calculateTimeDilation mass r1 <= calculateTimeDilation mass r2).
Proof.
  intros Hm. pose proof (IdealSpec.schwarzschild_radius_pos mass Hm) as Hrs.
  set (rs := calculateSchwarzschildRadius mass) in *.
  assert (Hfrac : forall radius, rs < radius -> 0 < rs / radius < 1).
  { intros radius H. split; [apply Rdiv_lt_0_compat; lra|].
    apply (Rmult_lt_reg_r radius); [lra|].
    replace (rs / radius * radius) with rs by (field; lra). lra. }
  split.
  - intros radius. destruct (Rle_dec radius rs) as [Hin|Hout].
    + rewrite (time_dilation_inside mass radius Hin). split; lra.
    + rewrite (time_dilation_outside mass radius) by (fold rs; lra).
      fold rs. pose proof (Hfrac radius ltac:(lra)) as Hu.
      split; [apply sqrt_pos|].
      rewrite <- sqrt_1 at 2. apply sqrt_le_1_alt. lra.
  - intros r1 r2 H12. destruct (Rle_dec r1 rs) as [Hin|Hout].
    + rewrite (time_dilation_inside mass r1 Hin).
      destruct (Rle_dec r2 rs) as [Hin2|Hout2].
      * rewrite (time_dilation_inside mass r2 Hin2). lra.
      * rewrite (time_dilation_outside mass r2) by (fold rs; lra).
        apply sqrt_pos.
    + rewrite (time_dilation_outside mass r1) by (fold rs; lra).
      rewrite (time_dilation_outside mass r2) by (fold rs; lra).
      fold rs. pose proof (Hfrac r1 ltac:(lra)) as Hu1.
      pose proof (Hfrac r2 ltac:(lra)) as Hu2.
      apply sqrt_le_1_alt.
      assert (rs / r2 <= rs / r1); [|lra].
      unfold Rdiv. apply Rmult_le_compat_l; [lra|].
      apply Rinv_le_contravar; lra.
Qed.

Lemma time_dilation_range_and_monotone_witness :
  (forall radius, 0 <= calculateTimeDilation 10 radius <= 1) /\
  (forall r1 r2,
      r1 <= r2 ->
      calculateTimeDilation 10 r1 <= calculateTimeDilation 10 r2).
Proof.
  apply time_dilation_range_and_monotone. lra.
Defined.

(** *** The innermost stable orbit on the documented range of spins *)

Lemma Math_pow_zero (exponent : R) : Math_pow 0 exponent = 0.
Proof.
  unfold Math_pow. destruct (Rlt_dec 0 0) as [H|_]; [lra | reflexivity].
Qed.

(** [Math.pow(v, 1/3)] is the cube root on non-negative numbers. *)
Lemma cube_root_spec (v : R) :
  0 <= v -> 0 <= Math_pow v (1 / 3) /\ Math_pow v (1 / 3) ^ 3 = v.
Proof.
  intros Hv. unfold Math_pow. destruct (Rlt_dec 0 v) as [Hpos|Hzero].
  - split; [left; apply exp_pos|].
    rewrite <- Rpower_pow by apply exp_pos. rewrite Rpower_mult.
    replace (1 / 3 * INR 3) with 1 by (simpl; lra).
    apply Rpower_1. exact Hpos.
  - split; [lra|]. simpl. lra.
Qed.

(** At the largest documented spin the orbit comes down to the
    Schwarzschild radius, which is also the event-horizon radius. *)
Theorem isco_at_maximal_spin (mass : R) :
  calculateISCO mass 1 = calculateSchwarzschildRadius mass /\
  calculateISCO mass 1 = calculateEventHorizon mass.
Proof.
  assert (H : calculateISCO mass 1 = calculateSchwarzschildRadius mass).
  { unfold calculateISCO, Math_sqrt. cbv zeta.
    replace (1 - 1 * 1) with 0 by ring. rewrite Math_pow_zero.
    replace (1 + 0 * (Math_pow (1 + 1) (1 / 3) + Math_pow (1 - 1) (1 / 3)))
      with 1 by ring.
    replace (3 * 1 * 1 + 1 * 1) with (2 * 2) by ring.
    rewrite (sqrt_square 2) by lra.
    replace ((3 - 1) * (3 + 1 + 2 * 2)) with (4 * 4) by ring.
    rewrite (sqrt_square 4) by lra. ring. }
  split; [exact H | exact H].
Qed.

(** For a spin between 0 and 1 the formula stays within the real numbers:
    [Z1] lies between 1 and 3, so both square roots are taken of
    non-negative numbers; and the orbit radius of a positive mass is
    positive. *)
Theorem isco_defined_on_spin_range (mass spin : R) :
  0 <= spin <= 1 ->
  1 <= isco_Z1 spin <= 3 /\
  0 <= 3 * spin * spin + isco_Z1 spin * isco_Z1 spin /\
  0 <= (3 - isco_Z1 spin) * (3 + isco_Z1 spin + 2 * isco_Z2 spin) /\
  calculateISCO mass spin
  = calculateSchwarzschildRadius mass
    * (3 + isco_Z2 spin
       - sqrt ((3 - isco_Z1 spin)
               * (3 + isco_Z1 spin + 2 * isco_Z2 spin))) /\
  (0 < mass -> 0 < calculateISCO mass spin).
Proof.
  intros Hs.
  destruct (cube_root_spec (1 - spin * spin) ltac:(nra)) as [Hw0 Hw3].
  destruct (cube_root_spec (1 + spin) ltac:(lra)) as [Hu0 Hu3].
  destruct (cube_root_spec (1 - spin) ltac:(lra)) as [Hv0 Hv3].
  assert (HZ1 : isco_Z1 spin
                = 1 + Math_pow (1 - spin * spin) (1 / 3)
                      * (Math_pow (1 + spin) (1 / 3)
                         + Math_pow (1 - spin) (1 / 3))) by reflexivity.
  set (w := Math_pow (1 - spin * spin) (1 / 3)) in *.
  set (u := Math_pow (1 + spin) (1 / 3)) in *.
  set (v := Math_pow (1 - spin) (1 / 3)) in *.
  clearbody w u v. simpl in Hw3, Hu3, Hv3.
  assert (Hw1 : w <= 1).
  { destruct (Rle_dec w 1) as [H|H]; [exact H|]. exfalso.
    assert (1 < w * w) by nra. assert (1 < w * (w * 1) * 1) by nra. nra. }
  assert (Huv : u + v <= 2).
  { destruct (Rle_dec (u + v) 2) as [H|H]; [exact H|]. exfalso.
    assert (Hsum : u * (u * (u * 1)) + v * (v * (v * 1)) = 2) by lra.
    assert (Hsq : 0 <= (u - v) * (u - v)) by apply Rle_0_sqr.
    assert (Hpm : (u + v) * ((u + v) * (u + v))
                  <= 4 * (u * (u * (u * 1)) + v * (v * (v * 1)))).
    { assert (0 <= 3 * (u + v) * ((u - v) * (u - v)))
        by (apply Rmult_le_pos; [lra | exact Hsq]).
      nra. }
    assert (4 < (u + v) * (u + v)) by nra.
    assert (8 < (u + v) * ((u + v) * (u + v))) by nra.
    lra. }
  assert (HZ1b : 1 <= isco_Z1 spin <= 3) by (rewrite HZ1; split; nra).
  assert (HZ2 : 0 <= isco_Z2 spin) by apply sqrt_pos.
  assert (Hrad : 0 <= (3 - isco_Z1 spin)
                      * (3 + isco_Z1 spin + 2 * isco_Z2 spin))
    by (apply Rmult_le_pos; lra).
  split; [exact HZ1b|]. split; [nra|]. split; [exact Hrad|].
  split; [reflexivity|].
  intros Hm. pose proof (IdealSpec.schwarzschild_radius_pos mass Hm) as Hrs.
  change (0 < calculateSchwarzschildRadius mass
              * (3 + isco_Z2 spin
                 - sqrt ((3 - isco_Z1 spin)
                         * (3 + isco_Z1 spin + 2 * isco_Z2 spin)))).
  apply Rmult_lt_0_compat; [exact Hrs|].
  set (Z1 := isco_Z1 spin) in *. set (Z2 := isco_Z2 spin) in *.
  assert (Hlt : sqrt ((3 - Z1) * (3 + Z1 + 2 * Z2))
                < sqrt ((3 + Z2) * (3 + Z2))).
  { apply sqrt_lt_1_alt. split; [exact Hrad|]. nra. }
  rewrite sqrt_square in Hlt by lra. lra.
Qed.

Lemma isco_defined_on_spin_range_witness :
  1 <= isco_Z1 0.5 <= 3 /\
  0 <= 3 * 0.5 * 0.5 + isco_Z1 0.5 * isco_Z1 0.5 /\
  0 <= (3 - isco_Z1 0.5) * (3 + isco_Z1 0.5 + 2 * isco_Z2 0.5) /\
  calculateISCO 10 0.5
  = calculateSchwarzschildRadius 10
    * (3 + isco_Z2 0.5
       - sqrt ((3 - isco_Z1 0.5)
               * (3 + isco_Z1 0.5 + 2 * isco_Z2 0.5))) /\
  (0 < 10 -> 0 < calculateISCO 10 0.5).
Proof.
  apply (isco_defined_on_spin_range 10 0.5). lra.
Defined.

(** *** The radii of one mass *)

Lemma isco_spin_zero (mass : R) :
  calculateISCO mass 0 = 6 * calculateSchwarzschildRadius mass.
Proof.
  unfold calculateISCO, Math_sqrt. cbv zeta.
  replace (1 - 0 * 0) with 1 by ring.
  replace (1 + 0) with 1 by ring.
  replace (1 - 0) with 1 by ring.
  rewrite !IdealSpec.Math_pow_one.
  replace (1 + 1 * (1 + 1)) with 3 by ring.
  replace (3 * 0 * 0 + 3 * 3) with (3 * 3) by ring.
  rewrite (sqrt_square 3) by lra.
  replace ((3 - 3) * (3 + 3 + 2 * 3)) with 0 by ring.
  rewrite sqrt_0. ring.
Qed.

(** The radii of a positive mass are nested, event horizon within
    photon sphere within the orbit of a hole without spin, and none of them
    decreases when the mass grows.  The comparisons between radii are not
    strict: in binary64 neighbouring masses can share a radius, and radii
    that overflow are all Infinity. *)
Theorem radii_nested_and_monotone (mass : R) :
  0 < mass ->
  0 < calculateEventHorizon mass
  /\ calculateEventHorizon mass <= calculatePhotonSphere mass
  /\ calculatePhotonSphere mass <= calculateISCO mass 0
  /\ (forall heavier,
         mass <= heavier ->
         calculateSchwarzschildRadius mass
         <= calculateSchwarzschildRadius heavier
         /\ calculatePhotonSphere mass <= calculatePhotonSphere heavier
         /\ calculateISCO mass 0 <= calculateISCO heavier 0).
Proof.
  intros Hm. pose proof (IdealSpec.schwarzschild_radius_pos mass Hm) as Hrs.
  unfold calculateEventHorizon, calculatePhotonSphere.
  rewrite isco_spin_zero.
  split; [exact Hrs|]. split; [lra|]. split; [lra|].
  intros heavier Hh. rewrite !isco_spin_zero.
  rewrite (IdealSpec.schwarzschild_radius_linear mass),
          (IdealSpec.schwarzschild_radius_linear heavier).
  pose proof IdealSpec.schwarzschild_radius_one as H1.
  repeat split; nra.
Qed.

Lemma radii_nested_and_monotone_witness :
  0 < calculateEventHorizon 10
  /\ calculateEventHorizon 10 <= calculatePhotonSphere 10
  /\ calculatePhotonSphere 10 <= calculateISCO 10 0
  /\ (forall heavier,
         10 <= heavier ->
         calculateSchwarzschildRadius 10
         <= calculateSchwarzschildRadius heavier
         /\ calculatePhotonSphere 10 <= calculatePhotonSphere heavier
         /\ calculateISCO 10 0 <= calculateISCO heavier 0).
Proof.
  apply radii_nested_and_monotone. lra.
Defined.

(** *** Accretion colour *)

(** From radius 1 outwards and for a colour parameter between 0 and 1 the
    three channels are valid colour components: each lies between 0 and 1. *)
Theorem accretion_colour_in_range (mass radius colorTemp : R) :
  1 <= radius -> 0 <= colorTemp <= 1 ->
  0 <= r (calculateAccretionTemperature mass radius colorTemp) <= 1 /\
  0 <= g (calculateAccretionTemperature mass radius colorTemp) <= 1 /\
  0 <= b (calculateAccretionTemperature mass radius colorTemp) <= 1.
Proof.
  intros Hr Hc. unfold calculateAccretionTemperature. cbv zeta.
  assert (Hp : 1 <= Math_pow radius 0.75).
  { unfold Math_pow. destruct (Rlt_dec 0 radius) as [_|H]; [|lra].
    rewrite <- (Rpower_O radius) by lra.
    apply Rle_Rpower; lra. }
  set (p := Math_pow radius 0.75) in *. clearbody p.
  assert (Hinv : 0 < 1.0 / p <= 1).
  { split; [apply Rdiv_lt_0_compat; lra|].
    apply (Rmult_le_reg_r p); [lra|].
    replace (1.0 / p * p) with 1 by (replace 1.0 with 1 by lra; field; lra).
    lra. }
  set (q := 1.0 / p) in *. clearbody q.
  assert (Ht : 0 < q * (0.5 + colorTemp * 0.5) <= 1) by (split; nra).
  set (temp := q * (0.5 + colorTemp * 0.5)) in *. clearbody temp.
  unfold temperatureToColor. cbv zeta.
  destruct (Rlt_dec temp 0.33); [cbn [r g b]; lra|].
  destruct (Rlt_dec temp 0.66); cbn [r g b]; lra.
Qed.

Lemma accretion_colour_in_range_witness :
  0 <= r (calculateAccretionTemperature 10 2 0.5) <= 1 /\
  0 <= g (calculateAccretionTemperature 10 2 0.5) <= 1 /\
  0 <= b (calculateAccretionTemperature 10 2 0.5) <= 1.
Proof.
  apply accretion_colour_in_range; lra.
Defined.

(** Nothing clamps the channels: close to the centre blue falls below 0. *)
Lemma accretion_blue_negative_near_centre (mass : R) :
  b (calculateAccretionTemperature mass 0.0625 1) < 0.
Proof.
  unfold calculateAccretionTemperature. cbv zeta.
  assert (Hp : Math_pow 0.0625 0.75 = 0.125).
  { unfold Math_pow. destruct (Rlt_dec 0 0.0625) as [_|H]; [|lra].
    replace 0.0625 with (Rpower 0.5 (INR 4))
      by (rewrite Rpower_pow by lra; simpl; lra).
    rewrite Rpower_mult.
    replace (INR 4 * 0.75) with (INR 3) by (simpl; lra).
    rewrite Rpower_pow by lra. simpl. lra. }
  rewrite Hp.
  replace (1.0 / 0.125 * (0.5 + 1 * 0.5)) with 8 by lra.
  unfold temperatureToColor. cbv zeta.
  destruct (Rlt_dec 8 0.33); [lra|].
  destruct (Rlt_dec 8 0.66); [lra|]. cbn [b]. lra.
Qed.

End PhysicsMore.

(* ================================================================== *)
(** ** Edge behaviour of the physics library in binary64 *)
(* ================================================================== *)

Module Binary64More.

Import Binary64 Binary64Host FloatOrder FloatExact.
Local Open Scope float_scope.

(** *** NaN is absorbing *)

Lemma mul_nan_l (v : float) : nan * v = nan.
Proof.
  apply Prim2SF_inj. rewrite mul_spec.
  destruct (Prim2SF v) as [s|s| |s m e]; reflexivity.
Qed.

Lemma mul_nan_r (v : float) : v * nan = nan.
Proof.
  apply Prim2SF_inj. rewrite mul_spec.
  destruct (Prim2SF v) as [s|s| |s m e]; reflexivity.
Qed.

Lemma add_nan_l (v : float) : nan + v = nan.
Proof.
  apply Prim2SF_inj. rewrite add_spec.
  destruct (Prim2SF v) as [s|s| |s m e]; reflexivity.
Qed.

Lemma add_nan_r (v : float) : v + nan = nan.
Proof.
  apply Prim2SF_inj. rewrite add_spec.
  destruct (Prim2SF v) as [s|s| |s m e]; reflexivity.
Qed.

Lemma sub_nan_l (v : float) : nan - v = nan.
Proof.
  apply Prim2SF_inj. rewrite sub_spec.
  destruct (Prim2SF v) as [s|s| |s m e]; reflexivity.
Qed.

Lemma sub_nan_r (v : float) : v - nan = nan.
Proof.
  apply Prim2SF_inj. rewrite sub_spec.
  destruct (Prim2SF v) as [s|s| |s m e]; reflexivity.
Qed.

Lemma sqrt_nan : Math_sqrt nan = nan.
Proof. reflexivity. Qed.

Create Rewrite HintDb nan_absorbing.
#[local] Hint Rewrite mul_nan_l mul_nan_r add_nan_l add_nan_r
  sub_nan_l sub_nan_r sqrt_nan : nan_absorbing.

(** *** The innermost stable orbit outside the range of spins *)

(** [calculateISCO] does not check the spin.  When [Math.pow] gives NaN on
    [1 - spin^2] (as it does for a negative base and the exponent 1/3, that
    is for a spin beyond 1 in magnitude) the result is NaN for every
    mass. *)
Theorem isco_nan_outside_spin_range
    (Math_pow : float -> float -> float) (mass spin : float) :
  Math_pow (1 - spin * spin) (1 / 3) = nan ->
  calculateISCO Math_pow mass spin = nan.
Proof.
  intros Hpow. unfold calculateISCO. cbv zeta. rewrite Hpow.
  autorewrite with nan_absorbing. reflexivity.
Qed.

Lemma isco_nan_outside_spin_range_witness :
  calculateISCO pow_fixed_cases 10 1.5 = nan.
Proof.
  apply isco_nan_outside_spin_range. reflexivity.
Defined.

(** *** Orbital velocity at radius zero *)

(** [calculateOrbitalVelocity] has no guard for a zero radius, unlike the
    lensing angle and the curvature.  For a mass whose gravitational
    parameter [G * massKg] is positive, radius [+0] gives [Infinity] and
    radius [-0] gives NaN. *)
Theorem orbital_velocity_zero_radius (mass : float) :
  (0 <? G * (mass * solarMass)) = true ->
  calculateOrbitalVelocity mass 0 = infinity /\
  calculateOrbitalVelocity mass (-0) = nan.
Proof.
  intros Hpos. unfold calculateOrbitalVelocity, Math_sqrt. cbv zeta.
  change (0 * 1000) with 0. change (-0 * 1000) with (-0).
  set (gm := G * (mass * solarMass)) in *. clearbody gm.
  rewrite ltb_spec in Hpos.
  split; apply Prim2SF_inj; rewrite sqrt_spec, div_spec;
    destruct (Prim2SF gm) as [s|s| |s m e];
    try discriminate Hpos; destruct s; try discriminate Hpos; reflexivity.
Qed.

Lemma orbital_velocity_zero_radius_witness :
  calculateOrbitalVelocity 10 0 = infinity /\
  calculateOrbitalVelocity 10 (-0) = nan.
Proof.
  apply orbital_velocity_zero_radius. reflexivity.
Defined.

(** *** The lensing angle on the two sides of the hole *)

(** The lensing angle is an odd function of the impact parameter, for
    all doubles: with the opposite impact parameter the angle is the
    opposite double, NaN and the infinities included; and when the impact
    parameter is a zero of either sign the angle is [+0] on both sides. *)
Theorem lensing_angle_is_odd (mass impactParameter : float) :
  ((impactParameter =? 0) = false ->
   calculateLensingAngle mass (- impactParameter)
   = - calculateLensingAngle mass impactParameter) /\
  ((impactParameter =? 0) = true ->
   calculateLensingAngle mass (- impactParameter) = 0 /\
   calculateLensingAngle mass impactParameter = 0).
Proof.
  unfold calculateLensingAngle. cbv zeta. rewrite eqb_zero_opp.
  split; intros ->; [apply div_opp_r | split; reflexivity].
Qed.

End Binary64More.

(* ================================================================== *)
(** ** Properties of the vectors and matrices in binary64 *)
(* ================================================================== *)

Module MatricesSpec.

Import ListNotations.
Import Binary64 Simulation Matrices FloatExact.
Local Open Scope list_scope.
Local Open Scope float_scope.

(** *** The cross product *)

(** Exchanging the arguments of [cross] negates every component, up to
    the sign of a zero, for all doubles; and the cross product of a vector
    with itself has only components that are [+0] or NaN. *)
Theorem cross_is_antisymmetric (a b : list float) :
  (forall i, (i < 3)%nat ->
     same_number (item (cross b a) i) (- item (cross a b) i)) /\
  (forall i, (i < 3)%nat ->
     item (cross a a) i = 0 \/ item (cross a a) i = nan).
Proof.
  split; intros i Hi; destruct i as [|[|[|i]]]; try lia;
    cbn [cross item nth].
  - rewrite (Binary64Spec.mul_comm (nth 1 b nan)),
            (Binary64Spec.mul_comm (nth 2 b nan)).
    apply sub_antisym.
  - rewrite (Binary64Spec.mul_comm (nth 2 b nan)),
            (Binary64Spec.mul_comm (nth 0 b nan)).
    apply sub_antisym.
  - rewrite (Binary64Spec.mul_comm (nth 0 b nan)),
            (Binary64Spec.mul_comm (nth 1 b nan)).
    apply sub_antisym.
  - rewrite (Binary64Spec.mul_comm (nth 2 a nan)). apply sub_diag.
  - rewrite (Binary64Spec.mul_comm (nth 0 a nan)). apply sub_diag.
  - rewrite (Binary64Spec.mul_comm (nth 1 a nan)). apply sub_diag.
Qed.

(** *** Matrix products *)

(** A matrix of sixteen entries, by name. *)
Ltac sixteen a H :=
  do 16 (destruct a as [|? a]; [discriminate H|]);
  destruct a; [clear H | discriminate H].

Ltac all_finite :=
  repeat match goal with
         | H : Forall _ (_ :: _) |- _ =>
             apply Forall_cons_iff in H; destruct H as [? H]
         end.

(** A product with a zero entry. *)
Ltac zero_term :=
  repeat apply add_zeros;
  first [ apply mul_zero_r; [assumption | reflexivity]
        | apply mul_zero_l; [assumption | reflexivity] ].

(** The one term of a row-by-column sum that is not a product with zero. *)
Ltac pick_term :=
  repeat first
    [ apply same_number_refl
    | eapply same_number_trans; [apply add_zero_r; zero_term|]
    | eapply same_number_trans; [apply add_zero_l; zero_term|] ].

(** [multiplyMatrices] returns sixteen entries whatever the operands
    are; and for a matrix of sixteen finite entries the product with the
    unit matrix, on either side, is the matrix itself, entry by entry and
    up to the sign of a zero. *)
Theorem multiplyMatrices_unit :
  (forall a b, List.length (multiplyMatrices a b) = 16%nat) /\
  (forall a,
      List.length a = 16%nat -> Forall (fun v => is_finite v = true) a ->
      forall k, (k < 16)%nat ->
        same_number (item (multiplyMatrices a identity) k) (item a k) /\
        same_number (item (multiplyMatrices identity a) k) (item a k)).
Proof.
  split; [reflexivity|].
  intros a Hlen Hfin k Hk.
  sixteen a Hlen. all_finite.
  do 16 (destruct k as [|k]; [
    cbn [multiplyMatrices identity flat_map map seq app item nth
         Nat.add Nat.mul];
    rewrite ?mul_one_r, ?mul_one_l; split; pick_term |]).
  lia.
Qed.

Lemma multiplyMatrices_unit_witness :
  same_number
    (item (multiplyMatrices
             [1; 2; 3; 0; 4; 5; 6; 0; 7; 8; 9; 0; -1; -2; -3; 1] identity) 13)
    (-2).
Proof.
  refine (proj1 (proj2 multiplyMatrices_unit
                   [1; 2; 3; 0; 4; 5; 6; 0; 7; 8; 9; 0; -1; -2; -3; 1]
                   eq_refl _ 13%nat _)).
  - repeat constructor.
  - repeat constructor.
Defined.

(** The model-view matrix of [renderBlackHole], for a view matrix of
    sixteen finite entries: rows 0 to 2 of every column of the view matrix,
    the translation column included, are multiplied by [mass * 0.1], and
    row 3 is kept.  So the scale acts on positions in camera space, with
    the camera as its fixed point.  At mass 10 the scale is exactly 1 and
    the matrix is the view matrix.  Entries are compared up to the sign of
    a zero. *)
Theorem black_hole_model_view_scales_rows (view : list float)
    (mass : float) :
  List.length view = 16%nat -> Forall (fun v => is_finite v = true) view ->
  let modelView := blackHoleModelView view mass in
  List.length modelView = 16%nat /\
  (forall col row, (col < 4)%nat -> (row < 3)%nat ->
     same_number (item modelView (4 * col + row))
                 (item view (4 * col + row) * (mass * 0.1))) /\
  (forall col, (col < 4)%nat ->
     same_number (item modelView (4 * col + 3)) (item view (4 * col + 3))) /\
  (mass = 10 ->
   forall k, (k < 16)%nat -> same_number (item modelView k) (item view k)).
Proof.
  intros Hlen Hfin. cbv zeta. split; [reflexivity|].
  sixteen view Hlen. all_finite.
  split; [|split].
  - intros col row Hc Hr.
    destruct col as [|[|[|[|col]]]]; try lia;
      destruct row as [|[|[|row]]]; try lia;
      cbn [blackHoleModelView multiplyMatrices flat_map map seq app item nth
           Nat.add Nat.mul];
      pick_term.
  - intros col Hc.
    destruct col as [|[|[|[|col]]]]; try lia;
      cbn [blackHoleModelView multiplyMatrices flat_map map seq app item nth
           Nat.add Nat.mul];
      rewrite mul_one_r; pick_term.
  - intros -> k Hk.
    change (blackHoleModelView ?v 10) with (multiplyMatrices v identity).
    do 16 (destruct k as [|k]; [
      cbn [multiplyMatrices identity flat_map map seq app item nth
           Nat.add Nat.mul];
      rewrite ?mul_one_r; pick_term |]).
    lia.
Qed.

Lemma black_hole_model_view_scales_rows_witness :
  same_number
    (item (blackHoleModelView
             [1; 0; 0; 0; 0; 1; 0; 0; 0; 0; 1; 0; 0; 0; -20; 1] 20) 14)
    (-20 * (20 * 0.1)).
Proof.
  refine (proj1 (proj2 (black_hole_model_view_scales_rows
                          [1; 0; 0; 0; 0; 1; 0; 0; 0; 0; 1; 0; 0; 0; -20; 1]
                          20 eq_refl _)) 3%nat 2%nat _ _).
  - repeat constructor.
  - lia.
  - lia.
Defined.

(** *** Vectors too long to normalise *)

(** [normalize] has no guard against overflow: when the components are
    finite but the sum of their squares overflows to Infinity, the length
    is Infinity and every component of the result is a zero, not the
    component of a unit vector. *)
Theorem normalize_of_overflowing_vector (v0 v1 v2 : float) :
  is_finite v0 = true -> is_finite v1 = true -> is_finite v2 = true ->
  v0 * v0 + v1 * v1 + v2 * v2 = infinity ->
  normalize [v0; v1; v2] = [v0 / infinity; v1 / infinity; v2 / infinity] /\
  (v0 / infinity =? 0) = true /\
  (v1 / infinity =? 0) = true /\
  (v2 / infinity =? 0) = true.
Proof.
  intros H0 H1 H2 Hsum. split.
  - unfold normalize. cbv zeta. cbn [nth]. rewrite Hsum. reflexivity.
  - auto using div_infinity.
Qed.

Lemma normalize_of_overflowing_vector_witness :
  normalize [1e200; 3; -4] = [1e200 / infinity; 3 / infinity; -4 / infinity].
Proof.
  apply (normalize_of_overflowing_vector 1e200 3 (-4)); reflexivity.
Defined.

End MatricesSpec.

(* ================================================================== *)
(** ** Properties of the meshes *)
(* ================================================================== *)

Module GeometrySpec.

Import ListNotations.
Import Geometry.
Local Open Scope list_scope.

(** *** Nested loops that push a fixed number of entries *)

Lemma nested_loop_length {A : Type} (body : nat -> nat -> list A)
    (k rows cols : nat) :
  (forall i j, List.length (body i j) = k) ->
  List.length
    (flat_map (fun i => flat_map (fun j => body i j) (seq 0 cols))
              (seq 0 rows))
  = k * cols * rows.
Proof.
  intros Hk.
  assert (Hinner : forall i l,
             List.length (flat_map (fun j => body i j) l)
             = k * List.length l).
  { intros i l. induction l as [|j l IH]; cbn [flat_map List.length].
    - lia.
    - rewrite length_app, Hk, IH. lia. }
  generalize (seq 0 rows) as l, (length_seq rows 0).
  intros l Hl. rewrite <- Hl. clear Hl.
  induction l as [|i l IH]; cbn [flat_map List.length].
  - lia.
  - rewrite length_app, Hinner, length_seq, IH. lia.
Qed.

(** The six indices of the quad at row [i] and column [j] of a mesh with
    [cols] quads per row stay below the number of its vertices. *)
Lemma quad_indices_bound (rows cols : nat) :
  Forall (fun n => n < (cols + 1) * (rows + 1))
    (flat_map
       (fun i =>
          flat_map
            (fun j =>
               let a := i * (cols + 1) + j in
               let b := a + 1 in
               let c := a + (cols + 1) in
               let d := c + 1 in
               [a; b; c] ++ [b; d; c])
            (seq 0 cols))
       (seq 0 rows)).
Proof.
  apply Forall_flat_map, Forall_forall. intros i Hi.
  apply Forall_flat_map, Forall_forall. intros j Hj.
  apply in_seq in Hi. apply in_seq in Hj. cbv zeta. cbn [app].
  repeat constructor; nia.
Qed.

Lemma toUint16_small (l : list nat) (bound : nat) :
  Forall (fun n => n < bound) l -> bound <= 2 ^ 16 ->
  map toUint16 l = l.
Proof.
  intros Hl Hb. rewrite <- (map_id l) at 2.
  apply map_ext_in. intros n Hn.
  rewrite Forall_forall in Hl. specialize (Hl n Hn).
  unfold toUint16. apply Nat.mod_small. lia.
Qed.

Lemma in_range_of_bound (floatsPerVertex count : nat) (m : Mesh) :
  List.length (vertices m) = floatsPerVertex * count ->
  Forall (fun n => n < count) (indexBuffer m) ->
  indices_in_range floatsPerVertex m.
Proof.
  intros Hlen Hidx. unfold indices_in_range. rewrite Hlen.
  eapply Forall_impl; [|exact Hidx]. cbv beta. intros n Hn. nia.
Qed.

(** *** The sphere *)

(** For every number of segments the sphere mesh has
    [(widthSegments + 1) * (heightSegments + 1)] vertices of six numbers
    and six indices per quad.  While the vertices number at most [2^16]
    the sixteen-bit index buffer holds the indices as computed, and every
    one of them addresses a vertex inside the vertex array. *)
Theorem sphere_mesh_is_well_indexed
    (Math_cos Math_sin : PrimFloat.float -> PrimFloat.float)
    (radius : PrimFloat.float) (widthSegments heightSegments : nat) :
  (widthSegments + 1) * (heightSegments + 1) <= 2 ^ 16 ->
  let mesh := createSphereGeometry Math_cos Math_sin radius
                widthSegments heightSegments in
  List.length (vertices mesh)
  = 6 * ((widthSegments + 1) * (heightSegments + 1)) /\
  vertexCount mesh = 6 * widthSegments * heightSegments /\
  List.length (indexBuffer mesh) = vertexCount mesh /\
  indexBuffer mesh = sphereIndices widthSegments heightSegments /\
  indices_in_range 6 mesh.
Proof.
  intros Hsmall mesh.
  assert (Hv : List.length (vertices mesh)
               = 6 * ((widthSegments + 1) * (heightSegments + 1))).
  { unfold mesh, createSphereGeometry, vertices, sphereVertices. cbv zeta.
    rewrite (nested_loop_length _ 6); [lia | reflexivity]. }
  assert (Hn : vertexCount mesh = 6 * widthSegments * heightSegments).
  { unfold mesh, createSphereGeometry, vertexCount, sphereIndices.
    cbv zeta. rewrite (nested_loop_length _ 6); reflexivity. }
  pose proof (quad_indices_bound heightSegments widthSegments) as Hb.
  assert (Hi : indexBuffer mesh = sphereIndices widthSegments heightSegments).
  { unfold mesh, createSphereGeometry, indexBuffer.
    apply (toUint16_small _ _ Hb Hsmall). }
  split; [exact Hv|]. split; [exact Hn|]. split; [|split; [exact Hi|]].
  - rewrite Hi. reflexivity.
  - apply (in_range_of_bound 6 _ mesh Hv). rewrite Hi. exact Hb.
Qed.

Lemma sphere_mesh_is_well_indexed_witness :
  let mesh := createSphereGeometry (fun t => t) (fun t => t) 1 32 32 in
  List.length (vertices mesh) = 6 * ((32 + 1) * (32 + 1)) /\
  vertexCount mesh = 6 * 32 * 32 /\
  List.length (indexBuffer mesh) = vertexCount mesh /\
  indexBuffer mesh = sphereIndices 32 32 /\
  indices_in_range 6 mesh.
Proof.
  apply (sphere_mesh_is_well_indexed (fun t => t) (fun t => t) 1 32 32).
  apply Nat.leb_le. vm_compute. reflexivity.
Defined.

(** *** The grid *)

(** The grid has 41 by 41 vertices of three numbers and 9600 indices; the
    index buffer holds them as computed and each addresses a vertex inside
    the vertex array.  The vertices lie in the plane [y = 0], and their
    other coordinates run from -10 to 10. *)
Theorem grid_mesh_is_well_indexed :
  List.length (vertices createGridGeometry) = 3 * (41 * 41) /\
  vertexCount createGridGeometry = 6 * (40 * 40) /\
  indexBuffer createGridGeometry = gridIndices /\
  indices_in_range 3 createGridGeometry /\
  Forall (fun v => (-10 <=? v)%float = true /\ (v <=? 10)%float = true)
         (vertices createGridGeometry) /\
  (forall k, k < 41 * 41 ->
             nth (3 * k + 1) (vertices createGridGeometry) PrimFloat.nan
             = 0%float) /\
  nth 0 (vertices createGridGeometry) PrimFloat.nan = (-10)%float /\
  nth (3 * (41 * 41) - 1) (vertices createGridGeometry) PrimFloat.nan
  = 10%float.
Proof.
  pose proof (quad_indices_bound 40 40) as Hb.
  assert (Hv : List.length (vertices createGridGeometry) = 3 * (41 * 41))
    by (vm_compute; reflexivity).
  assert (Hi : indexBuffer createGridGeometry = gridIndices).
  { apply (toUint16_small _ _ Hb). apply Nat.leb_le. vm_compute. reflexivity. }
  split; [exact Hv|]. split; [vm_compute; reflexivity|].
  split; [exact Hi|]. split; [|split; [|split; [|split]]].
  - apply (in_range_of_bound 3 _ createGridGeometry Hv). rewrite Hi. exact Hb.
  - apply Forall_forall. intros v Hin.
    assert (Hall : forallb (fun v => (-10 <=? v)%float && (v <=? 10)%float)
                           (vertices createGridGeometry) = true)
      by (vm_compute; reflexivity).
    rewrite forallb_forall in Hall. specialize (Hall v Hin).
    apply andb_true_iff in Hall. exact Hall.
  - intros k Hk.
    assert (Hall : forallb
                     (fun k => PrimFloat.Leibniz.eqb
                         (nth (3 * k + 1) (vertices createGridGeometry)
                              PrimFloat.nan) 0%float)
                     (seq 0 (41 * 41)) = true)
      by (vm_compute; reflexivity).
    rewrite forallb_forall in Hall.
    apply FloatAxioms.Leibniz.eqb_spec, Hall, in_seq. lia.
  - vm_compute. reflexivity.
  - vm_compute. reflexivity.
Qed.

(** *** The accretion disk *)

(** The disk has 21 rings of 61 vertices of five numbers and 7200 indices;
    the index buffer holds them as computed and each addresses a vertex
    inside the vertex array, whatever the host's cosine, sine and random
    numbers are. *)
Theorem accretion_disk_mesh_is_well_indexed
    (Math_cos Math_sin : PrimFloat.float -> PrimFloat.float)
    (Math_random : nat -> PrimFloat.float)
    (accretionThickness : PrimFloat.float) :
  let mesh := createAccretionDiskGeometry Math_cos Math_sin Math_random
                accretionThickness in
  List.length (vertices mesh) = 5 * (61 * 21) /\
  vertexCount mesh = 6 * (60 * 20) /\
  indexBuffer mesh = accretionDiskIndices /\
  indices_in_range 5 mesh.
Proof.
  intros mesh.
  pose proof (quad_indices_bound 20 60) as Hb.
  assert (Hv : List.length (vertices mesh) = 5 * (61 * 21)).
  { unfold mesh, createAccretionDiskGeometry, vertices,
      accretionDiskVertices. cbv zeta.
    rewrite (nested_loop_length _ 5); reflexivity. }
  assert (Hi : indexBuffer mesh = accretionDiskIndices).
  { apply (toUint16_small _ _ Hb). apply Nat.leb_le. vm_compute. reflexivity. }
  split; [exact Hv|]. split; [|split; [exact Hi|]].
  - unfold mesh, createAccretionDiskGeometry, vertexCount,
      accretionDiskIndices. cbv zeta.
    rewrite (nested_loop_length _ 6); reflexivity.
  - apply (in_range_of_bound 5 _ mesh Hv). rewrite Hi. exact Hb.
Qed.

End GeometrySpec.

(* ================================================================== *)
(** ** Properties of the parameters and the mouse interaction *)
(* ================================================================== *)

Module SimulationSpec.

Import ListNotations.
Import Binary64 Binary64Host Simulation FloatOrder.
Local Open Scope string_scope.
Local Open Scope float_scope.

(** *** Comparisons of values that are not NaN *)

Lemma not_nan_compare (v : float) :
  is_nan v = false <-> SFcompare (Prim2SF v) (Prim2SF v) = Some Eq.
Proof.
  unfold is_nan. rewrite eqb_spec. unfold SFeqb.
  destruct (SFcompare (Prim2SF v) (Prim2SF v)) as [[ | | ]|] eqn:E;
    cbn; split; intros H; try discriminate H; try reflexivity.
Qed.

Lemma SFcompare_total (u v : spec_float) :
  SFcompare u u = Some Eq -> SFcompare v v = Some Eq ->
  exists c, SFcompare u v = Some c.
Proof.
  destruct u as [su|su| |su mu eu], v as [sv|sv| |sv mv ev]; cbn;
    intros Hu Hv; try discriminate; eexists; reflexivity.
Qed.

Lemma SFcompare_Eq_sym (u v : spec_float) :
  SFcompare u v = Some Eq -> SFcompare v u = Some Eq.
Proof.
  destruct u as [su|su| |su mu eu], v as [sv|sv| |sv mv ev];
    cbn [SFcompare]; try discriminate; sf_cases.
Qed.

Lemma SFcompare_Gt_Lt (u v : spec_float) :
  SFcompare u v = Some Gt -> SFcompare v u = Some Lt.
Proof.
  destruct u as [su|su| |su mu eu], v as [sv|sv| |sv mv ev];
    cbn [SFcompare]; try discriminate; sf_cases.
Qed.

Lemma leb_compare (u v : float) :
  (u <=? v) = true <->
  SFcompare (Prim2SF u) (Prim2SF v) = Some Lt \/
  SFcompare (Prim2SF u) (Prim2SF v) = Some Eq.
Proof.
  rewrite leb_spec. unfold SFleb.
  destruct (SFcompare (Prim2SF u) (Prim2SF v)) as [[ | | ]|];
    split; intros H; try discriminate H; auto;
    destruct H as [H|H]; discriminate H.
Qed.

Lemma leb_refl (v : float) : is_nan v = false -> (v <=? v) = true.
Proof.
  intros H. apply leb_compare. right. apply not_nan_compare. exact H.
Qed.

(** *** [Math.min] and [Math.max] *)

(** Of two values that are not NaN, [Math.min] returns one of them, and it
    is below both. *)
Lemma Math_min_spec (u v : float) :
  is_nan u = false -> is_nan v = false ->
  (Math_min u v = u \/ Math_min u v = v) /\
  (Math_min u v <=? u) = true /\ (Math_min u v <=? v) = true.
Proof.
  intros Hu Hv. unfold Math_min. rewrite Hu, Hv. cbn [orb].
  pose proof (proj1 (not_nan_compare u) Hu) as Cu.
  pose proof (proj1 (not_nan_compare v) Hv) as Cv.
  destruct (SFcompare_total _ _ Cu Cv) as [c Huv].
  destruct c.
  - pose proof (SFcompare_Eq_sym _ _ Huv) as Hvu.
    assert (H1 : (u <? v) = false)
      by (rewrite ltb_spec; unfold SFltb; rewrite Huv; reflexivity).
    assert (H2 : (v <? u) = false)
      by (rewrite ltb_spec; unfold SFltb; rewrite Hvu; reflexivity).
    rewrite H1, H2.
    destruct ((u =? 0) && get_sign v).
    + split; [right; reflexivity|]. split;
        [apply leb_compare; right; exact Hvu | apply leb_refl; exact Hv].
    + split; [left; reflexivity|]. split;
        [apply leb_refl; exact Hu | apply leb_compare; right; exact Huv].
  - rewrite (proj2 (ltb_compare u v) Huv).
    split; [left; reflexivity|]. split;
      [apply leb_refl; exact Hu | apply leb_compare; left; exact Huv].
  - pose proof (SFcompare_Gt_Lt _ _ Huv) as Hvu.
    assert (H1 : (u <? v) = false)
      by (rewrite ltb_spec; unfold SFltb; rewrite Huv; reflexivity).
    rewrite H1, (proj2 (ltb_compare v u) Hvu).
    split; [right; reflexivity|]. split;
      [apply leb_compare; left; exact Hvu | apply leb_refl; exact Hv].
Qed.

(** Of two values that are not NaN, [Math.max] returns one of them, and it
    is above both. *)
Lemma Math_max_spec (u v : float) :
  is_nan u = false -> is_nan v = false ->
  (Math_max u v = u \/ Math_max u v = v) /\
  (u <=? Math_max u v) = true /\ (v <=? Math_max u v) = true.
Proof.
  intros Hu Hv. unfold Math_max. rewrite Hu, Hv. cbn [orb].
  pose proof (proj1 (not_nan_compare u) Hu) as Cu.
  pose proof (proj1 (not_nan_compare v) Hv) as Cv.
  destruct (SFcompare_total _ _ Cu Cv) as [c Huv].
  destruct c.
  - pose proof (SFcompare_Eq_sym _ _ Huv) as Hvu.
    assert (H1 : (u <? v) = false)
      by (rewrite ltb_spec; unfold SFltb; rewrite Huv; reflexivity).
    assert (H2 : (v <? u) = false)
      by (rewrite ltb_spec; unfold SFltb; rewrite Hvu; reflexivity).
    rewrite H1, H2.
    destruct ((u =? 0) && get_sign u).
    + split; [right; reflexivity|]. split;
        [apply leb_compare; right; exact Huv | apply leb_refl; exact Hv].
    + split; [left; reflexivity|]. split;
        [apply leb_refl; exact Hu | apply leb_compare; right; exact Hvu].
  - rewrite (proj2 (ltb_compare u v) Huv).
    split; [right; reflexivity|]. split;
      [apply leb_compare; left; exact Huv | apply leb_refl; exact Hv].
  - pose proof (SFcompare_Gt_Lt _ _ Huv) as Hvu.
    assert (H1 : (u <? v) = false)
      by (rewrite ltb_spec; unfold SFltb; rewrite Huv; reflexivity).
    rewrite H1, (proj2 (ltb_compare v u) Hvu).
    split; [left; reflexivity|]. split;
      [apply leb_refl; exact Hu | apply leb_compare; left; exact Hvu].
Qed.

Lemma clamp_within (v : float) :
  is_nan v = false ->
  (0 <=? Math_max 0 (Math_min 90 v)) = true /\
  (Math_max 0 (Math_min 90 v) <=? 90) = true.
Proof.
  intros Hv.
  destruct (Math_min_spec 90 v eq_refl Hv) as (Hcases & Hle90 & _).
  assert (Hm : is_nan (Math_min 90 v) = false)
    by (destruct Hcases as [-> | ->]; [reflexivity | exact Hv]).
  destruct (Math_max_spec 0 (Math_min 90 v) eq_refl Hm) as (Hmax & Hge0 & _).
  split; [exact Hge0|].
  destruct Hmax as [-> | ->]; [reflexivity | exact Hle90].
Qed.

(** *** Dragging *)

(** A mouse move with the button down leaves the camera angle between 0
    and 90 degrees, provided the old angle plus a tenth of the vertical
    movement is a number; it records the pointer position and changes no
    other parameter.  If that sum is NaN the angle becomes NaN: the clamp
    does not repair it.  With the button up a move changes nothing. *)
Theorem drag_keeps_camera_angle_in_range (s : Sim) (clientX clientY : float) :
  let moved := onMouseMove s clientX clientY in
  let target := cameraAngle (params s) + (clientY - lastMouseY s) * 0.1 in
  (mouseDown s = false -> moved = s) /\
  (mouseDown s = true ->
   (is_nan target = false ->
    (0 <=? cameraAngle (params moved)) = true /\
    (cameraAngle (params moved) <=? 90) = true) /\
   (is_nan target = true -> cameraAngle (params moved) = nan) /\
   rotation moved = rotation s + (clientX - lastMouseX s) * 0.005 /\
   lastMouseX moved = clientX /\ lastMouseY moved = clientY /\
   mouseDown moved = true /\
   withCameraAngle (params moved) (cameraAngle (params s)) = params s).
Proof.
  cbv zeta. unfold onMouseMove. split.
  - intros ->. reflexivity.
  - intros Hdown. rewrite Hdown. cbn [params withCameraAngle cameraAngle
      rotation lastMouseX lastMouseY mouseDown].
    split; [apply clamp_within|]. split.
    + intros Hnan. unfold Math_min. rewrite Hnan, orb_true_r. reflexivity.
    + repeat split; try assumption.
      destruct s as [[ ] ]. reflexivity.
Qed.

Lemma drag_keeps_camera_angle_in_range_witness :
  let s := {| params := constructorParams; rotation := 0; mouseDown := true;
              lastMouseX := 100; lastMouseY := 100;
              schwarzschildRadiusText := ""; eventHorizonText := "" |} in
  let moved := onMouseMove s 130 900 in
  (0 <=? cameraAngle (params moved)) = true /\
  (cameraAngle (params moved) <=? 90) = true.
Proof.
  apply (proj2 (drag_keeps_camera_angle_in_range
                  {| params := constructorParams; rotation := 0;
                     mouseDown := true; lastMouseX := 100; lastMouseY := 100;
                     schwarzschildRadiusText := "";
                     eventHorizonText := "" |} 130 900) eq_refl).
  reflexivity.
Defined.

(** The events of a whole gesture, applied in order. *)
Lemma gesture_sample :
  let s := {| params := constructorParams; rotation := 0; mouseDown := false;
              lastMouseX := 0; lastMouseY := 0;
              schwarzschildRadiusText := ""; eventHorizonText := "" |} in
  let final := fold_left handle
                 [MouseMove 5 5; MouseDown 10 10; MouseMove 20 2000;
                  MouseMove 20 (-9000); MouseUp; MouseMove 0 0] s in
  cameraAngle (params final) = 0 /\ mouseDown final = false /\
  rotation final = 0.05.
Proof.
  repeat split; vm_compute; reflexivity.
Qed.

(** *** Reset *)

(** From any state, [resetParameters] restores exactly the parameters the
    constructor starts with and shows 29.54 km and 59.08 km in the two
    read-outs; it leaves the rotation and the mouse state as they are, and
    a second reset changes nothing more. *)
Theorem reset_restores_initial_parameters (s : Sim) :
  params (resetParameters s) = constructorParams /\
  schwarzschildRadiusText (resetParameters s) = "29.54 km" /\
  eventHorizonText (resetParameters s) = "59.08 km" /\
  rotation (resetParameters s) = rotation s /\
  mouseDown (resetParameters s) = mouseDown s /\
  lastMouseX (resetParameters s) = lastMouseX s /\
  lastMouseY (resetParameters s) = lastMouseY s /\
  resetParameters (resetParameters s) = resetParameters s.
Proof.
  unfold resetParameters, updatePhysicsDisplay.
  cbn [params mass rotation mouseDown lastMouseX lastMouseY
       schwarzschildRadiusText eventHorizonText].
  repeat split; vm_compute; reflexivity.
Qed.

(** *** Vectors of length zero *)

(** [normalize] has no guard for a vector of length zero: when all three
    components are zeros, of either sign, every component of the result is
    NaN. *)
Theorem normalize_of_zero_vector (v0 v1 v2 : float) :
  (v0 =? 0) = true -> (v1 =? 0) = true -> (v2 =? 0) = true ->
  normalize [v0; v1; v2] = [nan; nan; nan].
Proof.
  intros H0 H1 H2. unfold normalize. cbv zeta. cbn [nth].
  rewrite (Binary64Spec.origin_distance _ _ _ H0 H1 H2).
  destruct (eqb_zero_cases _ H0) as [-> | ->],
           (eqb_zero_cases _ H1) as [-> | ->],
           (eqb_zero_cases _ H2) as [-> | ->]; reflexivity.
Qed.

Lemma normalize_of_zero_vector_witness :
  normalize [0; -0; 0] = [nan; nan; nan].
Proof.
  apply normalize_of_zero_vector; reflexivity.
Defined.

End SimulationSpec.
